(** * Hyperparameter search for a Gaussian process: docs/scripts/gauss.f.py

    A shallow embedding of the script that estimates the variance [b] and the
    time-scale [c] of a squared-exponential Gaussian process, first by a grid
    sweep and then by a positively constrained downhill simplex search.

    The script leans on three libraries.  NumPy's scalar functions and the
    random generator are an interface ([NumPy], [NumPyData]); the structural
    results hold for every implementation of it, IEEE doubles included.
    SciPy's [fmin] is a black box that may only call the objective and
    eventually hand back a point ([plan]).  The Gaussian-process class of
    [rbf.gauss] is a third interface ([RbfGauss], and [RbfGaussRef] where
    side effects are at stake).

    What depends on the values of [np.exp] is stated on IEEE doubles
    ([Float64]), from two facts about [np.exp] there: it underflows to zero
    at -746 and is strictly positive from -745 up.  [Ideal.npfloat], the
    reals extended with IEEE's infinities and NaN, serves to run the
    theorems on one observation and for what [np.log] and [np.exp] do at
    zero, below zero, at infinity and at NaN, where it agrees with the
    doubles. *)

From Stdlib Require Import Reals Lra QArith Qreals ZArith Floats.
From stdpp Require Import base list.

(** ** Python outcomes: a value, or a raised exception *)

Inductive exn : Type :=
| IndexError
| ValueError
| DomainError
| NumericalError.

Inductive outcome (A : Type) : Type :=
| Ok (a : A)
| Raise (e : exn).

Arguments Ok {A} a.
Arguments Raise {A} e.

Definition obind {A B : Type} (c : outcome A) (k : A -> outcome B) : outcome B :=
  match c with
  | Ok a => k a
  | Raise e => Raise e
  end.

Definition omap {A B : Type} (f : A -> B) (c : outcome A) : outcome B :=
  obind c (fun a => Ok (f a)).

Declare Scope py_scope.
Delimit Scope py_scope with py.
Notation "'let!' x ':=' c 'in' k" := (obind c (fun x => k))
  (at level 10, x name, c at level 200, k at level 200) : py_scope.
Open Scope py_scope.

(** [x[i]] on a sequence: IndexError past the end. *)
Definition getitem {A : Type} (x : list A) (i : nat) : outcome A :=
  match x !! i with
  | Some a => Ok a
  | None => Raise IndexError
  end.

(** [a, b = out]: ValueError unless [out] has exactly two elements. *)
Definition unpack2 {A : Type} (out : list A) : outcome (A * A) :=
  match out with
  | [a; b] => Ok (a, b)
  | _ => Raise ValueError
  end.

(** [enumerate(xs)], counting from [k]. *)
Fixpoint enumerate_from {A : Type} (k : nat) (xs : list A) : list (nat * A) :=
  match xs with
  | [] => []
  | x :: rest => (k, x) :: enumerate_from (S k) rest
  end.

Definition enumerate {A : Type} (xs : list A) : list (nat * A) :=
  enumerate_from 0 xs.

(** ** The libraries the script calls *)

(** NumPy's floats.  [lit q] is the float a decimal literal denotes; the
    elementwise functions never raise (NumPy answers [nan] or [inf] with a
    warning), so they are total. *)
Class NumPy (F : Type) : Type := {
  lit : Q -> F;
  f_neg : F -> F;
  np_exp : F -> F;
  np_log : F -> F
}.

(** What the script needs besides to set up its data: arithmetic, [linspace]
    and NumPy's global random generator as an explicit state.  Seeding
    replaces the state; drawing normal deviates consumes it. *)
Class NumPyData (F RNG : Type) : Type := {
  f_add : F -> F -> F;
  f_mul : F -> F -> F;
  f_pow : F -> F -> F;
  np_linspace : F -> F -> nat -> list F;
  np_random_seed : Z -> RNG;
  np_random_normal : F -> list F -> RNG -> list F * RNG
}.

(** [rbf.gauss.gpse((a, b, c))]: the squared-exponential process with mean
    [a], variance [b] and time-scale [c]. *)
Record GaussianProcess (F : Type) : Type := gpse {
  hyperparameters : F * F * F
}.

Arguments gpse {F} _.
Arguments hyperparameters {F} _.

(** Modelled from the spec: [likelihood], a method of [rbf.gauss]'s process
    class, whose code is not part of the script.  The spec (4.1, 4.2) makes
    it a deterministic, pure function of the hyperparameters and of [t], [d]
    and [sigma] that either returns the log marginal likelihood or fails
    (DomainError, NumericalError). *)
Class RbfGauss (F : Type) : Type := {
  likelihood : GaussianProcess F -> list F -> list F -> list F -> outcome F
}.

(** Modelled from the spec: [draw_sample], the other method the script
    calls, also absent.  It draws a sample of the process at [t] with the
    global random generator. *)
Class RbfSampler (F RNG : Type) : Type := {
  draw_sample : GaussianProcess F -> list F -> RNG -> outcome (list F) * RNG
}.

(** ** The black-box minimizer

    A derivative-free minimizer can do two things: evaluate the objective at a
    point of its choosing and go on according to the value, or stop with a
    point.  Its iteration cap makes every run finite, hence an inductive
    tree.  An exception raised by the objective is not caught. *)
Inductive plan (F : Type) : Type :=
| Done (x : list F)
| Probe (x : list F) (k : F -> plan F).

Arguments Done {F} x.
Arguments Probe {F} x k.

(** [scipy.optimize.fmin]: which plan it follows from a starting point. *)
Class Minimizer (F : Type) : Type := {
  fmin_plan : list F -> plan F
}.

Fixpoint run {F : Type} (p : plan F) (f : list F -> outcome F) : outcome (list F) :=
  match p with
  | Done x => Ok x
  | Probe x k =>
      match f x with
      | Ok v => run (k v) f
      | Raise e => Raise e
      end
  end.

(** The same run with an objective that also reports what it did: the
    reports are collected in order. *)
Fixpoint run_log {F L : Type} (p : plan F) (f : list F -> outcome F * list L)
  : outcome (list F) * list L :=
  match p with
  | Done x => (Ok x, [])
  | Probe x k =>
      match f x with
      | (Ok v, l) => let (r, l') := run_log (k v) f in (r, l ++ l')
      | (Raise e, l) => (Raise e, l)
      end
  end.

(** The points at which a run evaluates its objective. *)
Definition probes {F : Type} (p : plan F) (f : list F -> outcome F) : list (list F) :=
  snd (run_log p (fun x => (f x, [x]))).

(** An objective that also reports the argument it was called with. *)
Definition logged {F B : Type} (func : list F -> B -> outcome F)
  (y : list F) (args : B) : outcome F * list (list F) :=
  (func y args, [y]).

Section Search.

Context {F : Type} `{NumPy F} `{RbfGauss F} `{Minimizer F}.

(** [fmin(func, x0, args=args)] calls [func(x, *args)]. *)
Definition fmin {B : Type} (func : list F -> B -> outcome F) (x0 : list F) (args : B)
  : outcome (list F) :=
  run (fmin_plan x0) (fun x => func x args).

(** Lines 38-45. *)
Definition pos_func {B R : Type} (func : list F -> B -> R) (x : list F) (blargs : B) : R :=
  func (map np_exp x) blargs.

Definition fmin_pos {B : Type} (func : list F -> B -> outcome F) (x0 : list F) (args : B)
  : outcome (list F) :=
  let! out := fmin (pos_func func) (map np_log x0) args in
  Ok (map np_exp out).

(** Lines 47-50. *)
Definition objective (x t d sigma : list F) : outcome F :=
  let! x0 := getitem x 0 in
  let! x1 := getitem x 1 in
  let gp := gpse (lit 0, x0, x1) in
  let! l := likelihood gp t d sigma in
  Ok (f_neg l).

(** [func(x, *(t, d, sigma))]. *)
Definition splat3 {A B C D R : Type} (func : A -> B -> C -> D -> R) (x : A) (args : B * C * D) : R :=
  let '(t, d, sigma) := args in func x t d sigma.

(** ** The grid sweep, lines 28-34

    The sweep reads the observations and writes the array [likelihoods]: the
    script's variables are the fields of [memory].  A statement maps the
    memory to an outcome and the memory it leaves behind, which a raised
    exception does not roll back. *)
Record memory : Type := {
  t : list F;
  d : list F;
  sigma : list F;
  likelihoods : list (list F)
}.

Definition M (A : Type) : Type := memory -> outcome A * memory.

Definition set_likelihoods (L : list (list F)) (m : memory) : memory :=
  {| t := t m; d := d m; sigma := sigma m; likelihoods := L |}.

(** [np.zeros((rows, cols))]. *)
Definition np_zeros (rows cols : nat) : list (list F) :=
  replicate rows (replicate cols (lit 0)).

(** [a[i, j] = v] on a two-dimensional array: IndexError out of bounds. *)
Definition setitem2 (a : list (list F)) (i j : nat) (v : F) : outcome (list (list F)) :=
  match a !! i with
  | Some row =>
      if decide (j < length row) then Ok (<[i := <[j := v]> row]> a)
      else Raise IndexError
  | None => Raise IndexError
  end.

(** [a[i, j]] read back, for the statements about the surface. *)
Definition cell (a : list (list F)) (i j : nat) : option F :=
  match a !! i with
  | Some row => row !! j
  | None => None
  end.

(** [for x in xs: body]. *)
Fixpoint for_each {A : Type} (xs : list A) (body : A -> M unit) : M unit :=
  fun m =>
    match xs with
    | [] => (Ok tt, m)
    | x :: rest =>
        match body x m with
        | (Ok _, m') => for_each rest body m'
        | (Raise e, m') => (Raise e, m')
        end
    end.

(** Lines 33-34, the body of the inner loop. *)
Definition grid_cell (i : nat) (b_test : F) (j : nat) (c_test : F) : M unit :=
  fun m =>
    let gp := gpse (lit 0, b_test, c_test) in
    match likelihood gp (t m) (d m) (sigma m) with
    | Raise e => (Raise e, m)
    | Ok v =>
        match setitem2 (likelihoods m) i j v with
        | Raise e => (Raise e, m)
        | Ok L => (Ok tt, set_likelihoods L m)
        end
    end.

(** Lines 32-34, the inner loop on row [i]. *)
Definition inner_loop (i : nat) (b_test : F) (c_search : list F) : M unit :=
  for_each (enumerate c_search) (fun jc => grid_cell i b_test (fst jc) (snd jc)).

(** Lines 30-34; the script has [rows = cols = 30]. *)
Definition grid_search (rows cols : nat) (b_search c_search : list F) : M unit :=
  fun m =>
    for_each (enumerate b_search) (fun ib => inner_loop (fst ib) (snd ib) c_search)
      (set_likelihoods (np_zeros rows cols) m).

(** An array of [rows] rows of [cols] elements each. *)
Definition shape (a : list (list F)) (rows cols : nat) : Prop :=
  length a = rows /\ forall i row, a !! i = Some row -> length row = cols.

(** Two memories hold the same observations. *)
Definition same_data (m m0 : memory) : Prop :=
  t m = t m0 /\ d m = d m0 /\ sigma m = sigma m0.

(** What line 34 evaluates for the candidates [b_test] and [c_test]. *)
Definition grid_value (m : memory) (b_test c_test : F) : outcome F :=
  likelihood (gpse (lit 0, b_test, c_test)) (t m) (d m) (sigma m).

(** What holds after [k] iterations of the inner loop on row [i]. *)
Definition row_filled (m0 : memory) (rows cols i : nat) (b : F) (cs : list F)
  (k : nat) (m : memory) : Prop :=
  same_data m m0
  /\ shape (likelihoods m) rows cols
  /\ (forall j c v, j < k -> cs !! j = Some c -> grid_value m0 b c = Ok v ->
        cell (likelihoods m) i j = Some v)
  /\ (forall i' j', ~ (i' = i /\ j' < k) ->
        cell (likelihoods m) i' j' = cell (likelihoods m0) i' j').

(** What holds after [k] iterations of the outer loop. *)
Definition rows_filled (m0 : memory) (rows cols : nat) (bs cs : list F)
  (k : nat) (m : memory) : Prop :=
  same_data m m0
  /\ shape (likelihoods m) rows cols
  /\ (forall i j b c v, i < k -> bs !! i = Some b -> cs !! j = Some c ->
        grid_value m0 b c = Ok v -> cell (likelihoods m) i j = Some v)
  /\ (forall i' j', ~ (i' < k /\ j' < length cs) ->
        cell (likelihoods m) i' j' = cell (likelihoods m0) i' j').

End Search.

Arguments memory F : clear implicits.

(** ** Arrays passed by reference *)

(** Modelled from the spec: [likelihood] once more, this time as Python
    calls it.  [t], [d] and [sigma] are NumPy arrays and reach the method by
    reference, so the method could write to them; the second component is
    what the three arrays hold when the call returns.  Nothing in this type
    keeps the method from changing them. *)
Class RbfGaussRef (F : Type) : Type := {
  likelihood_ref :
    GaussianProcess F -> list F -> list F -> list F ->
    outcome F * (list F * list F * list F)
}.

Section ByReference.

Context {F : Type} `{NumPy F} `{RbfGaussRef F}.

(** The spec's word on the method (4.2): no side effects. *)
Definition side_effect_free : Prop :=
  forall gp t d sigma, snd (likelihood_ref gp t d sigma) = (t, d, sigma).

(** What the method returns, its writes left aside. *)
Definition returned_value : RbfGauss F :=
  {| likelihood gp t d sigma := fst (likelihood_ref gp t d sigma) |}.

(** The memory after a call that was handed the arrays of [m]. *)
Definition after_call (m : memory F) (arrays : list F * list F * list F) : memory F :=
  let '(t', d', sigma') := arrays in
  {| t := t'; d := d'; sigma := sigma'; likelihoods := likelihoods m |}.

(** Lines 47-50, called on the arrays in memory as the simplex search does
    through [args=(t, d, sigma)]. *)
Definition objective_ref (x : list F) : M F :=
  fun m =>
    match getitem x 0 with
    | Raise e => (Raise e, m)
    | Ok x0 =>
        match getitem x 1 with
        | Raise e => (Raise e, m)
        | Ok x1 =>
            let gp := gpse (lit 0, x0, x1) in
            let (l, arrays) := likelihood_ref gp (t m) (d m) (sigma m) in
            (omap f_neg l, after_call m arrays)
        end
    end.

(** Lines 33-34. *)
Definition grid_cell_ref (i : nat) (b_test : F) (j : nat) (c_test : F) : M unit :=
  fun m =>
    let gp := gpse (lit 0, b_test, c_test) in
    let (l, arrays) := likelihood_ref gp (t m) (d m) (sigma m) in
    let m1 := after_call m arrays in
    match l with
    | Raise e => (Raise e, m1)
    | Ok v =>
        match setitem2 (likelihoods m1) i j v with
        | Raise e => (Raise e, m1)
        | Ok L => (Ok tt, set_likelihoods L m1)
        end
    end.

End ByReference.

Section Script.

Context {F RNG : Type} `{NumPy F} `{NumPyData F RNG} `{RbfGauss F} `{RbfSampler F RNG}
  `{Minimizer F}.

(** [x + y] on one-dimensional arrays, with NumPy's broadcasting of a
    single element; ValueError when the shapes do not agree. *)
Definition np_add (x y : list F) : outcome (list F) :=
  if decide (length x = length y) then Ok (zip_with f_add x y)
  else match x, y with
       | [a], _ => Ok (map (f_add a) y)
       | _, [b] => Ok (map (fun a => f_add a b) x)
       | _, _ => Raise ValueError
       end.

(** Lines 11-25: the seed, the observation points, the noise level and the
    noisy sample of the true process.  The result is [(t, d, sigma)]. *)
Definition observations (rng0 : RNG) : outcome (list F * list F * list F) * RNG :=
  let rng1 := np_random_seed 3 in
  let n := 500%nat in
  let t := np_linspace (lit (-5)) (lit 5) n in
  let sigma := map (f_mul (lit 0.5)) (replicate n (lit 1)) in
  let gp_true := gpse (lit 0, lit 2, lit 0.1) in
  match draw_sample gp_true t rng1 with
  | (Raise e, rng2) => (Raise e, rng2)
  | (Ok u, rng2) =>
      let (noise, rng3) := np_random_normal (lit 0) sigma rng2 in
      (omap (fun d => (t, d, sigma)) (np_add u noise), rng3)
  end.

(** The whole computation: the likelihood surface and [(b_mle, c_mle)]. *)
Definition script (rng0 : RNG) : outcome (list (list F) * (F * F)) :=
  match observations rng0 with
  | (Raise e, _) => Raise e
  | (Ok (t, d, sigma), _) =>
      let b_search := map (f_pow (lit 10)) (np_linspace (lit (-2)) (lit 2) 30) in
      let c_search := map (f_pow (lit 10)) (np_linspace (lit (-2)) (lit 1) 30) in
      let m := {| t := t; d := d; sigma := sigma; likelihoods := [] |} in
      match grid_search 30 30 b_search c_search m with
      | (Raise e, _) => Raise e
      | (Ok _, m') =>
          let! out := fmin_pos (splat3 objective) [lit 1; lit 1] (t, d, sigma) in
          let! mle := unpack2 out in
          Ok (likelihoods m', mle)
      end
  end.

End Script.

(** ** The surface after the sweep *)

Section Surface.
Context {F : Type} `{NumPy F}.

(** What every memory met during a sweep satisfies, however the sweep
    ends: the observations of [m0], an array of the allocated shape, and
    the allocated zero in each cell that no candidate pair indexes. *)
Definition sweep_inv (m0 : memory F) (rows cols nb nc : nat) (m : memory F) : Prop :=
  same_data m m0
  /\ shape (likelihoods m) rows cols
  /\ forall i j, i < rows -> j < cols -> ~ (i < nb /\ j < nc) ->
       cell (likelihoods m) i j = Some (lit 0).

(** Column [j] of a two-dimensional array. *)
Definition column (j : nat) (a : list (list F)) : list F :=
  flat_map (fun row => match row !! j with Some v => [v] | None => [] end) a.

(** Line 75, [likelihoods.T]: the transposed array, one row per column
    of [a].  An array without rows has no columns here. *)
Definition np_T (a : list (list F)) : list (list F) :=
  match a with
  | [] => []
  | row :: _ => map (fun j => column j a) (seq 0 (length row))
  end.

End Surface.

(** ** Exact floats

    The reals with IEEE's special values.  [np.log] answers [-inf] at zero
    and [nan] below it; [np.exp] sends [-inf] to zero.  Signed zeros,
    rounding, overflow and underflow are not represented, so nothing is
    concluded here from the exact values of [exp] and [ln]. *)
Module Ideal.

Inductive npfloat : Type :=
| Fin (r : R)
| PInf
| NInf
| NaN.

Definition exp_ (x : npfloat) : npfloat :=
  match x with
  | Fin r => Fin (exp r)
  | PInf => PInf
  | NInf => Fin 0
  | NaN => NaN
  end.

Definition log_ (x : npfloat) : npfloat :=
  match x with
  | Fin r =>
      if Rlt_dec 0 r then Fin (ln r)
      else if Req_dec_T r 0 then NInf
      else NaN
  | PInf => PInf
  | NInf => NaN
  | NaN => NaN
  end.

Definition neg_ (x : npfloat) : npfloat :=
  match x with
  | Fin r => Fin (- r)
  | PInf => NInf
  | NInf => PInf
  | NaN => NaN
  end.

#[export] Instance npfloat_numpy : NumPy npfloat := {|
  lit q := Fin (Q2R q);
  f_neg := neg_;
  np_exp := exp_;
  np_log := log_
|}.

(** A real value, as opposed to an infinity or NaN. *)
Definition real_valued (x : npfloat) : Prop :=
  match x with
  | Fin _ => True
  | _ => False
  end.

(** [0 < x] on floats: false for NaN. *)
Definition strictly_positive (x : npfloat) : Prop :=
  match x with
  | Fin r => (0 < r)%R
  | PInf => True
  | NInf => False
  | NaN => False
  end.

(** *** Instances used to exercise the theorems *)

(** Modelled from the spec: the log marginal likelihood of 4.2 for a single
    finite observation, where [K] is the 1-by-1 matrix [b]; a zero
    time-scale is a DomainError and a matrix [b + sigma^2] that is not
    positive a NumericalError.  Inputs of any other shape are refused. *)
Definition likelihood_single (gp : GaussianProcess npfloat) (t d sigma : list npfloat)
  : outcome npfloat :=
  match hyperparameters gp, t, d, sigma with
  | (Fin a, Fin b, Fin c), [Fin _], [Fin d0], [Fin s0] =>
      if Req_dec_T c 0 then Raise DomainError
      else if Rlt_dec 0 (b + s0 * s0)
      then Ok (Fin (- (1 / 2) * ((d0 - a) * (d0 - a) / (b + s0 * s0))
                    - (1 / 2) * ln (b + s0 * s0)
                    - (1 / 2) * ln (2 * PI)))
      else Raise NumericalError
  | _, _, _, _ => Raise NumericalError
  end.

Definition single_gauss : RbfGauss npfloat := {| likelihood := likelihood_single |}.

(** The same method called by reference: it hands the arrays back as it
    received them. *)
Definition single_gauss_ref : RbfGaussRef npfloat :=
  {| likelihood_ref gp t d sigma := (likelihood_single gp t d sigma, (t, d, sigma)) |}.

(** A minimizer that stops at once with the point it was given. *)
Definition stop_at_start : Minimizer npfloat := {| fmin_plan x0 := Done x0 |}.

(** A minimizer that evaluates the objective at its starting point, then
    stops there. *)
Definition probe_start : Minimizer npfloat :=
  {| fmin_plan x0 := Probe x0 (fun _ => Done x0) |}.

(** One observation [d = 0] at [t = 0] with unit noise. *)
Definition one_observation : list npfloat * list npfloat * list npfloat :=
  ([Fin 0], [Fin 0], [Fin 1]).

(** The same observation in memory, before the sweep allocates its array. *)
Definition demo_memory : memory npfloat :=
  {| t := [Fin 0]; d := [Fin 0]; sigma := [Fin 1]; likelihoods := [] |}.

End Ideal.

(** ** NumPy on IEEE doubles *)
Module Float64.

(** [np.exp(-746.0)] is [0.0]: below about -745.13 the exponential is
    smaller than half the smallest positive double and rounds to zero. *)
Definition exp_underflows (N : NumPy float) : Prop :=
  @np_exp float N (-746)%float = 0%float.

(** From -745.0 up, [+inf] included, [np.exp] is strictly positive:
    [np.exp(-745.0)] is [5e-324], the smallest positive double, and the
    function is increasing. *)
Definition exp_positive_from_745 (N : NumPy float) : Prop :=
  forall x : float, (-745 <=? x)%float = true -> (0 <? @np_exp float N x)%float = true.

(** A double that is neither an infinity nor NaN. *)
Definition finite64 (x : float) : Prop := is_finite x = true.

(** [0 < x], false for NaN. *)
Definition positive64 (x : float) : Prop := (0 <? x)%float = true.

(** [-745 <= x], false for NaN. *)
Definition at_least_minus_745 (x : float) : Prop := (-745 <=? x)%float = true.

(** C3 as stated: every call of [func] that comes from a finite probe has
    strictly positive arguments only. *)
Definition calls_always_positive (N : NumPy float) : Prop :=
  forall (B : Type) (Mz : Minimizer float) (func : list float -> B -> outcome float)
         (x0 : list float) (args : B),
    let p := @fmin_plan float Mz (map (@np_log float N) x0) in
    Forall2 (fun x y => y = map (@np_exp float N) x
                        /\ (Forall finite64 x -> Forall positive64 y))
      (probes p (fun x => @pos_func float N B _ func x args))
      (snd (run_log p (fun x => @pos_func float N B _ (logged func) x args))).

(** C10 as stated: whatever finite point the minimizer returns, what
    [fmin_pos] returns is strictly positive in every component. *)
Definition result_always_positive (N : NumPy float) : Prop :=
  forall (B : Type) (Mz : Minimizer float) (func : list float -> B -> outcome float)
         (x0 : list float) (args : B) (p : list float),
    @fmin float Mz B (@pos_func float N B _ func) (map (@np_log float N) x0) args = Ok p ->
    Forall finite64 p ->
    exists out, @fmin_pos float N Mz B func x0 args = Ok out
                /\ Forall positive64 out.

(** *** Instances used to exercise the theorems *)

(** An integer as a double (exact below 2^53). *)
Definition float_of_Z (z : Z) : float :=
  if (z <? 0)%Z then PrimFloat.opp (PrimFloat.of_uint63 (Uint63.of_Z (- z)))
  else PrimFloat.of_uint63 (Uint63.of_Z z).

(** A stand-in for NumPy on doubles whose [exp] is a step: 1 from -745 up
    and 0 below.  It has the two properties above and nothing else of the
    exponential; its [log] is a placeholder, which the minimizers below
    never look at. *)
Definition stand_in : NumPy float := {|
  lit q := (float_of_Z (Qnum q) / float_of_Z (Zpos (Qden q)))%float;
  f_neg := PrimFloat.opp;
  np_exp x := if (-745 <=? x)%float then 1%float else 0%float;
  np_log x := x
|}.

(** A minimizer that stops at a fixed point of log space. *)
Definition stop_at (p : list float) : Minimizer float := {| fmin_plan _ := Done p |}.

(** A minimizer that evaluates the objective at a fixed point of log space
    and stops there. *)
Definition probe_at (p : list float) : Minimizer float :=
  {| fmin_plan _ := Probe p (fun _ => Done p) |}.

End Float64.

(** * Properties *)

(** ** Runs of the minimizer *)

Lemma omap_Ok {A B : Type} (f : A -> B) (c : outcome A) (a : A) :
  c = Ok a -> omap f c = Ok (f a).
Proof. intros ->. reflexivity. Qed.

Lemma run_log_fst {F L : Type} (p : plan F) (f : list F -> outcome F * list L) :
  fst (run_log p f) = run p (fun x => fst (f x)).
Proof.
  induction p as [x | x k IH]; simpl; [reflexivity |].
  destruct (f x) as [[v | e] l]; simpl; [| reflexivity].
  specialize (IH v). destruct (run_log (k v) f) as [r l']. exact IH.
Qed.

(** A raised exception comes from an evaluation of the objective. *)
Lemma run_Raise {F : Type} (p : plan F) (f : list F -> outcome F) (e : exn) :
  run p f = Raise e -> exists x, x ∈ probes p f /\ f x = Raise e.
Proof.
  unfold probes. induction p as [x | x k IH]; simpl; [discriminate |].
  destruct (f x) as [v | e'] eqn:Efx.
  - intros Hr. destruct (IH v Hr) as (y & Hy & Hfy).
    exists y. split; [| exact Hfy].
    destruct (run_log (k v) _) as [r l']; simpl in *. right. exact Hy.
  - intros [= ->]. exists x. split; [left | exact Efx].
Qed.

Section SearchFacts.

Context {F : Type} `{NumPy F} `{RbfGauss F} `{Minimizer F}.

Lemma objective_pair (x0 x1 : F) (rest t d sigma : list F) :
  objective (x0 :: x1 :: rest) t d sigma
  = omap f_neg (likelihood (gpse (lit 0, x0, x1)) t d sigma).
Proof. reflexivity. Qed.

(** C1.  Applied to [objective] and a starting guess [(b0, c0)], [fmin_pos]
    hands the minimizer a function that maps [(beta, gamma)] to
    [-logL(0, exp beta, exp gamma)] and the starting point
    [(log b0, log c0)]; what it returns is the minimizer's point with [exp]
    applied to each component, which the script unpacks into
    [(exp beta', exp gamma')].  Nothing here needs [b0] and [c0] to be
    positive: the equations hold for every starting guess. *)
Theorem fmin_pos_objective_reparameterized (t d sigma : list F) (b0 c0 : F) :
  let args := (t, d, sigma) in
  let f := pos_func (splat3 objective) in
  (forall beta gamma : F,
      f [beta; gamma] args
      = omap f_neg (likelihood (gpse (lit 0, np_exp beta, np_exp gamma)) t d sigma))
  /\ fmin_pos (splat3 objective) [b0; c0] args
     = omap (map np_exp) (fmin f [np_log b0; np_log c0] args)
  /\ (forall beta' gamma' : F,
         fmin f [np_log b0; np_log c0] args = Ok [beta'; gamma'] ->
         obind (fmin_pos (splat3 objective) [b0; c0] args) unpack2
         = Ok (np_exp beta', np_exp gamma')).
Proof.
  intros args f. split; [| split].
  - intros beta gamma. reflexivity.
  - reflexivity.
  - intros beta' gamma' Hmin. unfold fmin_pos. simpl map.
    fold f. fold args. rewrite Hmin. reflexivity.
Qed.

End SearchFacts.

(** ** Loops over an enumerated sequence *)

Section LoopFacts.

Context {F : Type} `{NumPy F} `{RbfGauss F}.

Lemma for_each_from_ok {A : Type} (xs : list A) (body : nat * A -> M unit)
  (I : nat -> memory F -> Prop) (k0 : nat) (m : memory F) :
  I k0 m ->
  (forall k x m1, xs !! k = Some x -> I (k0 + k) m1 ->
     exists m2, body (k0 + k, x) m1 = (Ok tt, m2) /\ I (S (k0 + k)) m2) ->
  exists m', for_each (enumerate_from k0 xs) body m = (Ok tt, m') /\ I (k0 + length xs) m'.
Proof.
  revert k0 m. induction xs as [| x xs IH]; intros k0 m Hinit Hstep; simpl.
  - exists m. split; [reflexivity |]. replace (k0 + 0) with k0 by lia. exact Hinit.
  - destruct (Hstep 0 x m) as (m2 & Hb & HI); [reflexivity | |].
    { replace (k0 + 0) with k0 by lia. exact Hinit. }
    replace (k0 + 0) with k0 in Hb, HI by lia. rewrite Hb.
    destruct (IH (S k0) m2 HI) as (m' & Hrun & HI').
    { intros k y m1 Hy Hk. replace (S k0 + k) with (k0 + S k) in * by lia.
      apply Hstep; assumption. }
    exists m'. split; [exact Hrun |].
    replace (k0 + S (length xs)) with (S k0 + length xs) by lia. exact HI'.
Qed.

Lemma for_each_ok {A : Type} (xs : list A) (body : nat * A -> M unit)
  (I : nat -> memory F -> Prop) (m : memory F) :
  I 0 m ->
  (forall k x m1, xs !! k = Some x -> I k m1 ->
     exists m2, body (k, x) m1 = (Ok tt, m2) /\ I (S k) m2) ->
  exists m', for_each (enumerate xs) body m = (Ok tt, m') /\ I (length xs) m'.
Proof.
  intros Hinit Hstep. apply (for_each_from_ok xs body I 0 m Hinit).
  intros k x m1 Hx Hk. apply Hstep; assumption.
Qed.

Lemma for_each_from_raise {A : Type} (xs : list A) (body : nat * A -> M unit)
  (I : nat -> memory F -> Prop) (J : memory F -> Prop) (k0 : nat) (m : memory F)
  (k : nat) (x : A) (e : exn) :
  I k0 m ->
  xs !! k = Some x ->
  (forall k' x' m1, k' < k -> xs !! k' = Some x' -> I (k0 + k') m1 ->
     exists m2, body (k0 + k', x') m1 = (Ok tt, m2) /\ I (S (k0 + k')) m2) ->
  (forall m1, I (k0 + k) m1 -> exists m2, body (k0 + k, x) m1 = (Raise e, m2) /\ J m2) ->
  exists m', for_each (enumerate_from k0 xs) body m = (Raise e, m') /\ J m'.
Proof.
  revert k0 m k. induction xs as [| y xs IH]; intros k0 m k Hinit Hx Hstep Hfail.
  - discriminate.
  - destruct k as [| k]; simpl.
    + injection Hx as ->.
      destruct (Hfail m) as (m2 & Hb & HJ).
      { replace (k0 + 0) with k0 by lia. exact Hinit. }
      replace (k0 + 0) with k0 in Hb by lia. rewrite Hb.
      exists m2. split; [reflexivity | exact HJ].
    + destruct (Hstep 0 y m) as (m2 & Hb & HI); [lia | reflexivity | |].
      { replace (k0 + 0) with k0 by lia. exact Hinit. }
      replace (k0 + 0) with k0 in Hb, HI by lia. rewrite Hb.
      apply (IH (S k0) m2 k HI Hx).
      * intros k' x' m1 Hlt Hx' Hk'.
        replace (S k0 + k') with (k0 + S k') in * by lia.
        apply Hstep; [lia | exact Hx' | exact Hk'].
      * intros m1 Hm1. replace (S k0 + k) with (k0 + S k) in * by lia.
        apply Hfail. exact Hm1.
Qed.

Lemma for_each_raise {A : Type} (xs : list A) (body : nat * A -> M unit)
  (I : nat -> memory F -> Prop) (J : memory F -> Prop) (m : memory F)
  (k : nat) (x : A) (e : exn) :
  I 0 m ->
  xs !! k = Some x ->
  (forall k' x' m1, k' < k -> xs !! k' = Some x' -> I k' m1 ->
     exists m2, body (k', x') m1 = (Ok tt, m2) /\ I (S k') m2) ->
  (forall m1, I k m1 -> exists m2, body (k, x) m1 = (Raise e, m2) /\ J m2) ->
  exists m', for_each (enumerate xs) body m = (Raise e, m') /\ J m'.
Proof.
  intros Hinit Hx Hstep Hfail.
  apply (for_each_from_raise xs body I J 0 m k x e Hinit Hx).
  - intros k' x' m1 Hlt Hx' Hk'. apply Hstep; assumption.
  - intros m1 Hm1. apply Hfail. exact Hm1.
Qed.

End LoopFacts.

(** ** Two-dimensional arrays *)

Section ArrayFacts.

Context {F : Type} `{NumPy F}.

Lemma np_zeros_shape (rows cols : nat) : shape (np_zeros rows cols) rows cols.
Proof.
  unfold shape, np_zeros. split; [apply length_replicate |].
  intros i row Hrow. apply lookup_replicate in Hrow as [-> _]. apply length_replicate.
Qed.

Lemma np_zeros_cell (rows cols i j : nat) :
  i < rows -> j < cols -> cell (np_zeros rows cols) i j = Some (lit 0).
Proof.
  intros Hi Hj. unfold cell, np_zeros.
  rewrite lookup_replicate_2 by exact Hi. apply lookup_replicate_2. exact Hj.
Qed.

Lemma setitem2_frame (a a' : list (list F)) (i j : nat) (v : F) :
  setitem2 a i j v = Ok a' ->
  forall i' j', i' <> i \/ j' <> j -> cell a' i' j' = cell a i' j'.
Proof.
  unfold setitem2, cell. intros Hs i' j' Hne.
  destruct (a !! i) as [row |] eqn:Hrow; [| discriminate].
  destruct (decide (j < length row)); [| discriminate].
  injection Hs as <-.
  destruct (decide (i' = i)) as [-> | Hi].
  - rewrite list_lookup_insert_eq by (eapply lookup_lt_Some; exact Hrow).
    rewrite Hrow. apply list_lookup_insert_ne. destruct Hne; congruence.
  - rewrite list_lookup_insert_ne by congruence. reflexivity.
Qed.

Lemma setitem2_shape (a a' : list (list F)) (i j : nat) (v : F) (rows cols : nat) :
  setitem2 a i j v = Ok a' -> shape a rows cols -> shape a' rows cols.
Proof.
  unfold setitem2, shape. intros Hs [Hlen Hrows].
  destruct (a !! i) as [row |] eqn:Hrow; [| discriminate].
  destruct (decide (j < length row)); [| discriminate].
  injection Hs as <-. split.
  - rewrite length_insert. exact Hlen.
  - intros i' row' Hrow'. destruct (decide (i' = i)) as [-> | Hi].
    + rewrite list_lookup_insert_eq in Hrow' by (eapply lookup_lt_Some; exact Hrow).
      injection Hrow' as <-. rewrite length_insert. eapply Hrows; exact Hrow.
    + rewrite list_lookup_insert_ne in Hrow' by congruence. eapply Hrows; exact Hrow'.
Qed.

Lemma setitem2_written (a a' : list (list F)) (i j : nat) (v : F) :
  setitem2 a i j v = Ok a' -> cell a' i j = Some v.
Proof.
  unfold setitem2, cell. intros Hs.
  destruct (a !! i) as [row |] eqn:Hrow; [| discriminate].
  destruct (decide (j < length row)) as [Hj |]; [| discriminate].
  injection Hs as <-.
  rewrite list_lookup_insert_eq by (eapply lookup_lt_Some; exact Hrow).
  apply list_lookup_insert_eq. exact Hj.
Qed.

Lemma setitem2_in_bounds (a : list (list F)) (i j : nat) (v : F) (rows cols : nat) :
  shape a rows cols -> i < rows -> j < cols -> exists a', setitem2 a i j v = Ok a'.
Proof.
  unfold setitem2, shape. intros [Hlen Hrows] Hi Hj.
  destruct (lookup_lt_is_Some_2 a i) as [row Hrow]; [lia |].
  rewrite Hrow. rewrite (Hrows i row Hrow).
  destruct (decide (j < cols)); [eauto | contradiction].
Qed.

End ArrayFacts.

(** ** The grid sweep *)

Section GridFacts.

Context {F : Type} `{NumPy F} `{RbfGauss F}.

Lemma grid_value_same_data (m m0 : memory F) (b c : F) :
  same_data m m0 -> grid_value m b c = grid_value m0 b c.
Proof. intros (Ht & Hd & Hs). unfold grid_value. rewrite Ht, Hd, Hs. reflexivity. Qed.

Lemma same_data_refl (m : memory F) : same_data m m.
Proof. repeat split. Qed.

Lemma same_data_trans (m1 m2 m3 : memory F) :
  same_data m1 m2 -> same_data m2 m3 -> same_data m1 m3.
Proof. intros (? & ? & ?) (? & ? & ?). repeat split; congruence. Qed.

(** One iteration that succeeds writes its own cell and nothing else. *)
Lemma grid_cell_ok (i j rows cols : nat) (b c v : F) (m : memory F) :
  grid_value m b c = Ok v ->
  shape (likelihoods m) rows cols -> i < rows -> j < cols ->
  exists m', grid_cell i b j c m = (Ok tt, m')
    /\ same_data m' m
    /\ shape (likelihoods m') rows cols
    /\ cell (likelihoods m') i j = Some v
    /\ forall i' j', i' <> i \/ j' <> j ->
         cell (likelihoods m') i' j' = cell (likelihoods m) i' j'.
Proof.
  intros Hv Hshape Hi Hj. unfold grid_cell. unfold grid_value in Hv. rewrite Hv.
  destruct (setitem2_in_bounds (likelihoods m) i j v rows cols Hshape Hi Hj) as [L HL].
  rewrite HL. eexists. split; [reflexivity |]. simpl.
  split; [| split; [| split]].
  - repeat split.
  - eapply setitem2_shape; [exact HL | exact Hshape].
  - eapply setitem2_written; exact HL.
  - eapply setitem2_frame; exact HL.
Qed.

(** One iteration whose evaluation fails leaves the memory as it was. *)
Lemma grid_cell_raise (i j : nat) (b c : F) (e : exn) (m : memory F) :
  grid_value m b c = Raise e -> grid_cell i b j c m = (Raise e, m).
Proof. intros He. unfold grid_cell. unfold grid_value in He. rewrite He. reflexivity. Qed.

Lemma row_filled_start (m0 : memory F) (rows cols i : nat) (b : F) (cs : list F) :
  shape (likelihoods m0) rows cols -> row_filled m0 rows cols i b cs 0 m0.
Proof.
  intros Hshape. split; [apply same_data_refl | split; [exact Hshape | split]].
  - intros j c v Hj. lia.
  - reflexivity.
Qed.

Lemma row_filled_step (m0 : memory F) (rows cols i : nat) (b : F) (cs : list F)
  (k : nat) (c v : F) (m1 : memory F) :
  i < rows -> length cs <= cols ->
  cs !! k = Some c -> grid_value m0 b c = Ok v ->
  row_filled m0 rows cols i b cs k m1 ->
  exists m2, grid_cell i b k c m1 = (Ok tt, m2) /\ row_filled m0 rows cols i b cs (S k) m2.
Proof.
  intros Hi Hcs Hc Hv (Hdata & Hshape & Hdone & Hrest).
  assert (Hk : k < cols) by (apply lookup_lt_Some in Hc; lia).
  destruct (grid_cell_ok i k rows cols b c v m1) as (m2 & Hrun & Hd2 & Hs2 & Hw & Hfr);
    [rewrite (grid_value_same_data m1 m0) by exact Hdata; exact Hv
    | exact Hshape | exact Hi | exact Hk |].
  exists m2. split; [exact Hrun |]. split; [| split; [| split]].
  - eapply same_data_trans; [exact Hd2 | exact Hdata].
  - exact Hs2.
  - intros j c' v' Hj Hc' Hv'. destruct (decide (j = k)) as [-> | Hne].
    + rewrite Hc in Hc'. injection Hc' as <-. rewrite Hv in Hv'. injection Hv' as <-.
      exact Hw.
    + rewrite Hfr by (right; exact Hne). apply (Hdone j c' v'); [lia | exact Hc' | exact Hv'].
  - intros i' j' Hout. rewrite Hfr by (destruct (decide (i' = i)); [right | left]; lia).
    apply Hrest. lia.
Qed.

Lemma inner_loop_ok (m0 : memory F) (rows cols i : nat) (b : F) (cs : list F) :
  shape (likelihoods m0) rows cols -> i < rows -> length cs <= cols ->
  (forall j c, cs !! j = Some c -> exists v, grid_value m0 b c = Ok v) ->
  exists m', inner_loop i b cs m0 = (Ok tt, m')
    /\ row_filled m0 rows cols i b cs (length cs) m'.
Proof.
  intros Hshape Hi Hcs Hall. unfold inner_loop.
  apply (for_each_ok cs _ (row_filled m0 rows cols i b cs) m0).
  - apply row_filled_start. exact Hshape.
  - intros k c m1 Hc Hinv. destruct (Hall k c Hc) as [v Hv]. simpl.
    eapply row_filled_step; eassumption.
Qed.

Lemma inner_loop_raise (m0 : memory F) (rows cols i j : nat) (b c : F) (cs : list F)
  (e : exn) :
  shape (likelihoods m0) rows cols -> i < rows -> length cs <= cols ->
  cs !! j = Some c -> grid_value m0 b c = Raise e ->
  (forall j' c', j' < j -> cs !! j' = Some c' -> exists v, grid_value m0 b c' = Ok v) ->
  exists m', inner_loop i b cs m0 = (Raise e, m')
    /\ row_filled m0 rows cols i b cs j m'.
Proof.
  intros Hshape Hi Hcs Hc He Hbefore. unfold inner_loop.
  apply (for_each_raise cs _ (row_filled m0 rows cols i b cs)
           (row_filled m0 rows cols i b cs j) m0 j c e).
  - apply row_filled_start. exact Hshape.
  - exact Hc.
  - intros k c' m1 Hk Hc' Hinv. destruct (Hbefore k c' Hk Hc') as [v Hv]. simpl.
    eapply row_filled_step; eassumption.
  - intros m1 Hinv. exists m1. split; [| exact Hinv]. simpl.
    apply grid_cell_raise.
    rewrite (grid_value_same_data m1 m0) by exact (proj1 Hinv). exact He.
Qed.

Lemma rows_filled_start (m0 : memory F) (rows cols : nat) (bs cs : list F) :
  shape (likelihoods m0) rows cols -> rows_filled m0 rows cols bs cs 0 m0.
Proof.
  intros Hshape. split; [apply same_data_refl | split; [exact Hshape | split]].
  - intros i j b c v Hi. lia.
  - reflexivity.
Qed.

(** A row swept on top of [k] finished rows. *)
Lemma rows_filled_row (m0 m1 m2 : memory F) (rows cols : nat) (bs cs : list F)
  (k n : nat) (b : F) :
  bs !! k = Some b -> n <= length cs ->
  rows_filled m0 rows cols bs cs k m1 ->
  row_filled m1 rows cols k b cs n m2 ->
  same_data m2 m0
  /\ shape (likelihoods m2) rows cols
  /\ (forall i j b' c v, i < k \/ (i = k /\ j < n) -> bs !! i = Some b' -> cs !! j = Some c ->
        grid_value m0 b' c = Ok v -> cell (likelihoods m2) i j = Some v)
  /\ (forall i' j', ~ (i' < k /\ j' < length cs) -> ~ (i' = k /\ j' < n) ->
        cell (likelihoods m2) i' j' = cell (likelihoods m0) i' j').
Proof.
  intros Hb Hn (Hd1 & Hs1 & Hdone1 & Hrest1) (Hd2 & Hs2 & Hdone2 & Hrest2).
  split; [eapply same_data_trans; eassumption | split; [exact Hs2 | split]].
  - intros i j b' c v [Hi | [-> Hj]] Hb' Hc Hv.
    + rewrite Hrest2 by lia. apply (Hdone1 i j b' c v); assumption.
    + rewrite Hb in Hb'. injection Hb' as <-.
      apply (Hdone2 j c v); [exact Hj | exact Hc |].
      rewrite (grid_value_same_data m1 m0) by exact Hd1. exact Hv.
  - intros i' j' Hout1 Hout2. rewrite Hrest2 by exact Hout2. apply Hrest1. exact Hout1.
Qed.

Lemma rows_filled_step (m0 m1 m2 : memory F) (rows cols : nat) (bs cs : list F)
  (k : nat) (b : F) :
  bs !! k = Some b ->
  rows_filled m0 rows cols bs cs k m1 ->
  row_filled m1 rows cols k b cs (length cs) m2 ->
  rows_filled m0 rows cols bs cs (S k) m2.
Proof.
  intros Hb H1 H2.
  destruct (rows_filled_row m0 m1 m2 rows cols bs cs k (length cs) b Hb (le_n _) H1 H2)
    as (Hd & Hs & Hdone & Hrest).
  split; [exact Hd | split; [exact Hs | split]].
  - intros i j b' c v Hi Hb' Hc Hv. apply (Hdone i j b' c v); try assumption.
    apply lookup_lt_Some in Hc. lia.
  - intros i' j' Hout. apply Hrest; lia.
Qed.

End GridFacts.

Section GridTheorems.

Context {F : Type} `{NumPy F} `{RbfGauss F}.

Lemma same_data_zeros (rows cols : nat) (mem : memory F) :
  same_data (set_likelihoods (np_zeros rows cols) mem) mem.
Proof. repeat split. Qed.

Lemma grid_search_ok (rows cols : nat) (bs cs : list F) (mem : memory F) :
  length bs <= rows -> length cs <= cols ->
  (forall i j b c, bs !! i = Some b -> cs !! j = Some c ->
     exists v, grid_value mem b c = Ok v) ->
  exists mem', grid_search rows cols bs cs mem = (Ok tt, mem')
    /\ rows_filled (set_likelihoods (np_zeros rows cols) mem) rows cols bs cs (length bs) mem'.
Proof.
  intros Hbs Hcs Hall. unfold grid_search.
  set (m0 := set_likelihoods (np_zeros rows cols) mem).
  apply (for_each_ok bs _ (rows_filled m0 rows cols bs cs) m0).
  - apply rows_filled_start. apply np_zeros_shape.
  - intros k b m1 Hb Hinv. simpl.
    destruct (inner_loop_ok m1 rows cols k b cs) as (m2 & Hrun & Hrow).
    + exact (proj1 (proj2 Hinv)).
    + apply lookup_lt_Some in Hb. lia.
    + exact Hcs.
    + intros j c Hc. destruct (Hall k j b c Hb Hc) as [v Hv]. exists v.
      rewrite (grid_value_same_data m1 m0) by exact (proj1 Hinv).
      rewrite (grid_value_same_data m0 mem) by apply same_data_zeros. exact Hv.
    + exists m2. split; [exact Hrun |]. eapply rows_filled_step; eassumption.
Qed.

(** C2.  With [m] candidates for [b] and [m] for [c] (30 in the script) and
    every evaluation returning a value, the sweep ends normally, whatever
    the values are, and leaves an [m]-by-[m] array whose entry [(i, j)] is
    the log likelihood of the observations for the hyperparameters
    [(0, b_search[i], c_search[j])], for every [i] and [j] below [m]. *)
Theorem grid_search_surface (m : nat) (b_search c_search : list F) (mem : memory F) :
  length b_search = m -> length c_search = m ->
  (forall i j b c, b_search !! i = Some b -> c_search !! j = Some c ->
     exists v, likelihood (gpse (lit 0, b, c)) (t mem) (d mem) (sigma mem) = Ok v) ->
  exists mem', grid_search m m b_search c_search mem = (Ok tt, mem')
    /\ shape (likelihoods mem') m m
    /\ forall i j, i < m -> j < m ->
         exists b c v, b_search !! i = Some b /\ c_search !! j = Some c
           /\ likelihood (gpse (lit 0, b, c)) (t mem) (d mem) (sigma mem) = Ok v
           /\ cell (likelihoods mem') i j = Some v.
Proof.
  intros Hbs Hcs Hall.
  destruct (grid_search_ok m m b_search c_search mem) as (mem' & Hrun & Hinv);
    [lia | lia | exact Hall |].
  destruct Hinv as (Hdata & Hshape & Hdone & _).
  exists mem'. split; [exact Hrun | split; [exact Hshape |]].
  intros i j Hi Hj.
  destruct (lookup_lt_is_Some_2 b_search i) as [b Hb]; [lia |].
  destruct (lookup_lt_is_Some_2 c_search j) as [c Hc]; [lia |].
  destruct (Hall i j b c Hb Hc) as [v Hv].
  exists b, c, v. repeat split; try assumption.
  apply (Hdone i j b c v); [lia | exact Hb | exact Hc |].
  rewrite (grid_value_same_data _ mem) by apply same_data_zeros. exact Hv.
Qed.

Lemma enumerate_from_elem {A : Type} (xs : list A) (k i : nat) (x : A) :
  xs !! i = Some x -> (k + i, x) ∈ enumerate_from k xs.
Proof.
  revert k i. induction xs as [| y xs IH]; intros k i Hx; [discriminate |].
  destruct i as [| i]; simpl in *.
  - injection Hx as ->. replace (k + 0) with k by lia. left.
  - right. replace (k + S i) with (S k + i) by lia. apply IH. exact Hx.
Qed.

Lemma for_each_preserves {A : Type} (xs : list A) (body : A -> M unit)
  (P : memory F -> Prop) (m m' : memory F) (r : outcome unit) :
  (forall x m1 r1 m2, P m1 -> body x m1 = (r1, m2) -> P m2) ->
  P m -> for_each xs body m = (r, m') -> P m'.
Proof.
  intros Hbody. revert m. induction xs as [| x xs IH]; intros m Hm; simpl.
  - intros [= _ <-]. exact Hm.
  - destruct (body x m) as [[u | e] m1] eqn:Hb.
    + apply IH. eapply Hbody; [exact Hm | exact Hb].
    + intros [= _ <-]. eapply Hbody; [exact Hm | exact Hb].
Qed.

Lemma for_each_Ok_inv {A : Type} (xs : list A) (body : A -> M unit)
  (P : memory F -> Prop) (m m' : memory F) (u : unit) :
  (forall x m1 r1 m2, P m1 -> body x m1 = (r1, m2) -> P m2) ->
  P m -> for_each xs body m = (Ok u, m') ->
  forall x, x ∈ xs -> exists m1 m2, P m1 /\ body x m1 = (Ok tt, m2).
Proof.
  intros Hbody. revert m. induction xs as [| y xs IH]; intros m Hm Hrun x Hx.
  - inversion Hx.
  - simpl in Hrun. destruct (body y m) as [[[] | e] m1] eqn:Hb; [| discriminate].
    apply elem_of_cons in Hx as [-> | Hx].
    + exists m, m1. split; [exact Hm | exact Hb].
    + apply (IH m1); [eapply Hbody; [exact Hm | exact Hb] | exact Hrun | exact Hx].
Qed.

Lemma grid_cell_same_data (i j : nat) (b c : F) (m0 m1 m2 : memory F) (r : outcome unit) :
  same_data m1 m0 -> grid_cell i b j c m1 = (r, m2) -> same_data m2 m0.
Proof.
  intros Hd. unfold grid_cell.
  destruct (likelihood _ _ _ _) as [v | e]; [| intros [= _ <-]; exact Hd].
  destruct (setitem2 _ _ _ _) as [L | e]; intros [= _ <-]; exact Hd.
Qed.

Lemma grid_cell_Ok_value (i j : nat) (b c : F) (m1 m2 : memory F) (u : unit) :
  grid_cell i b j c m1 = (Ok u, m2) -> exists v, grid_value m1 b c = Ok v.
Proof.
  unfold grid_cell, grid_value.
  destruct (likelihood _ _ _ _) as [v | e]; [eauto | discriminate].
Qed.

Lemma inner_loop_same_data (i : nat) (b : F) (cs : list F) (m0 m1 m2 : memory F)
  (r : outcome unit) :
  same_data m1 m0 -> inner_loop i b cs m1 = (r, m2) -> same_data m2 m0.
Proof.
  intros Hd. unfold inner_loop.
  apply (for_each_preserves _ _ (fun m => same_data m m0)); [| exact Hd].
  intros jc m3 r1 m4 Hd3. apply grid_cell_same_data. exact Hd3.
Qed.

(** A sweep that ends normally evaluated every pair of candidates with
    success. *)
Lemma grid_search_Ok_inv (rows cols : nat) (bs cs : list F) (mem mem' : memory F)
  (u : unit) :
  grid_search rows cols bs cs mem = (Ok u, mem') ->
  forall i j b c, bs !! i = Some b -> cs !! j = Some c ->
    exists v, grid_value mem b c = Ok v.
Proof.
  unfold grid_search. intros Hrun i j b c Hb Hc.
  destruct (for_each_Ok_inv (enumerate bs) _ (fun m => same_data m mem) _ _ _
              (fun ib m1 r1 m2 Hd => inner_loop_same_data (fst ib) (snd ib) cs mem m1 m2 r1 Hd)
              (same_data_zeros rows cols mem) Hrun (i, b))
    as (m1 & m2 & Hd1 & Hin).
  { apply (enumerate_from_elem bs 0 i b Hb). }
  simpl in Hin. unfold inner_loop in Hin.
  destruct (for_each_Ok_inv (enumerate cs) _ (fun m => same_data m mem) _ _ _
              (fun jc m3 r1 m4 Hd => grid_cell_same_data i (fst jc) b (snd jc) mem m3 m4 r1 Hd)
              Hd1 Hin (j, c))
    as (m3 & m4 & Hd3 & Hcell).
  { apply (enumerate_from_elem cs 0 j c Hc). }
  simpl in Hcell. apply grid_cell_Ok_value in Hcell as [v Hv].
  exists v. rewrite <- (grid_value_same_data m3 mem) by exact Hd3. exact Hv.
Qed.

Lemma grid_search_fails (rows cols : nat) (bs cs : list F) (mem : memory F)
  (i j : nat) (b c : F) (e : exn) :
  bs !! i = Some b -> cs !! j = Some c -> grid_value mem b c = Raise e ->
  exists e' mem', grid_search rows cols bs cs mem = (Raise e', mem').
Proof.
  intros Hb Hc He.
  destruct (grid_search rows cols bs cs mem) as [[u | e'] mem'] eqn:Hrun; [| eauto].
  destruct (grid_search_Ok_inv rows cols bs cs mem mem' u Hrun i j b c Hb Hc) as [v Hv].
  rewrite He in Hv. discriminate.
Qed.
(** The first evaluation to fail ends the sweep with its exception; the
    cells before it hold their values, its own cell and the later ones the
    zero they were allocated with. *)
Lemma grid_search_first_failure (rows cols : nat) (b_search c_search : list F)
  (mem : memory F) (i j : nat) (b c : F) (e : exn) :
  length b_search <= rows -> length c_search <= cols ->
  b_search !! i = Some b -> c_search !! j = Some c ->
  likelihood (gpse (lit 0, b, c)) (t mem) (d mem) (sigma mem) = Raise e ->
  (forall i' j' b' c', i' < i \/ (i' = i /\ j' < j) ->
     b_search !! i' = Some b' -> c_search !! j' = Some c' ->
     exists v, likelihood (gpse (lit 0, b', c')) (t mem) (d mem) (sigma mem) = Ok v) ->
  exists mem', grid_search rows cols b_search c_search mem = (Raise e, mem')
    /\ (forall i' j' b' c' v, i' < i \/ (i' = i /\ j' < j) ->
          b_search !! i' = Some b' -> c_search !! j' = Some c' ->
          likelihood (gpse (lit 0, b', c')) (t mem) (d mem) (sigma mem) = Ok v ->
          cell (likelihoods mem') i' j' = Some v)
    /\ (forall i' j', i' < rows -> j' < cols -> ~ (i' < i \/ (i' = i /\ j' < j)) ->
          cell (likelihoods mem') i' j' = Some (lit 0)).
Proof.
  intros Hbs Hcs Hb Hc He Hbefore.
  set (m0 := set_likelihoods (np_zeros rows cols) mem).
  assert (Hm0 : forall b' c', grid_value m0 b' c' = grid_value mem b' c').
  { intros b' c'. apply grid_value_same_data. apply same_data_zeros. }
  assert (Hrun : exists mem', grid_search rows cols b_search c_search mem = (Raise e, mem')
            /\ exists m1, rows_filled m0 rows cols b_search c_search i m1
                 /\ row_filled m1 rows cols i b c_search j mem').
  { unfold grid_search. fold m0.
    apply (for_each_raise b_search _ (rows_filled m0 rows cols b_search c_search)
             (fun m2 => exists m1, rows_filled m0 rows cols b_search c_search i m1
                          /\ row_filled m1 rows cols i b c_search j m2) m0 i b e).
    - apply rows_filled_start. apply np_zeros_shape.
    - exact Hb.
    - intros k b' m1 Hk Hb' Hinv. simpl.
      destruct (inner_loop_ok m1 rows cols k b' c_search) as (m2 & Hrun & Hrow).
      + exact (proj1 (proj2 Hinv)).
      + apply lookup_lt_Some in Hb'. lia.
      + exact Hcs.
      + intros j' c' Hc'.
        destruct (Hbefore k j' b' c' (or_introl Hk) Hb' Hc') as [v Hv]. exists v.
        rewrite (grid_value_same_data m1 m0) by exact (proj1 Hinv). rewrite Hm0. exact Hv.
      + exists m2. split; [exact Hrun |]. eapply rows_filled_step; eassumption.
    - intros m1 Hinv. simpl.
      destruct (inner_loop_raise m1 rows cols i j b c c_search e) as (m2 & Hrun & Hrow).
      + exact (proj1 (proj2 Hinv)).
      + apply lookup_lt_Some in Hb. lia.
      + exact Hcs.
      + exact Hc.
      + rewrite (grid_value_same_data m1 m0) by exact (proj1 Hinv). rewrite Hm0. exact He.
      + intros j' c' Hj' Hc'.
        destruct (Hbefore i j' b c' (or_intror (conj eq_refl Hj')) Hb Hc') as [v Hv].
        exists v.
        rewrite (grid_value_same_data m1 m0) by exact (proj1 Hinv). rewrite Hm0. exact Hv.
      + exists m2. split; [exact Hrun |]. exists m1. split; [exact Hinv | exact Hrow]. }
  destruct Hrun as (mem' & Hrun & m1 & Hrows & Hrow).
  assert (Hj : j <= length c_search) by (apply lookup_lt_Some in Hc; lia).
  destruct (rows_filled_row m0 m1 mem' rows cols b_search c_search i j b Hb Hj Hrows Hrow)
    as (_ & _ & Hdone & Hrest).
  exists mem'. split; [exact Hrun | split].
  - intros i' j' b' c' v Hpos Hb' Hc' Hv.
    apply (Hdone i' j' b' c' v Hpos Hb' Hc'). rewrite Hm0. exact Hv.
  - intros i' j' Hi' Hj' Hlater. rewrite Hrest by lia.
    unfold m0. simpl. apply np_zeros_cell; assumption.
Qed.

(** C5.  When the evaluation for some pair of candidates fails, the sweep
    does not produce a surface: it ends with an exception.  When that
    evaluation is the one the sweep reaches first among the failing ones,
    with exception [e], and the array has room for the candidates, the sweep
    ends with [e] itself; the array has by then received the values of the
    earlier cells, while cell [(i, j)] and every cell after it still hold the
    zero they were allocated with: no stand-in value is written and no later
    candidate is tried. *)
Theorem grid_search_propagates_failure (rows cols : nat) (b_search c_search : list F)
  (mem : memory F) (i j : nat) (b c : F) (e : exn) :
  b_search !! i = Some b -> c_search !! j = Some c ->
  likelihood (gpse (lit 0, b, c)) (t mem) (d mem) (sigma mem) = Raise e ->
  (exists e' mem', grid_search rows cols b_search c_search mem = (Raise e', mem'))
  /\ (length b_search <= rows -> length c_search <= cols ->
      (forall i' j' b' c', i' < i \/ (i' = i /\ j' < j) ->
         b_search !! i' = Some b' -> c_search !! j' = Some c' ->
         exists v, likelihood (gpse (lit 0, b', c')) (t mem) (d mem) (sigma mem) = Ok v) ->
      exists mem', grid_search rows cols b_search c_search mem = (Raise e, mem')
        /\ (forall i' j' b' c' v, i' < i \/ (i' = i /\ j' < j) ->
              b_search !! i' = Some b' -> c_search !! j' = Some c' ->
              likelihood (gpse (lit 0, b', c')) (t mem) (d mem) (sigma mem) = Ok v ->
              cell (likelihoods mem') i' j' = Some v)
        /\ (forall i' j', i' < rows -> j' < cols -> ~ (i' < i \/ (i' = i /\ j' < j)) ->
              cell (likelihoods mem') i' j' = Some (lit 0))).
Proof.
  intros Hb Hc He. split.
  - apply (grid_search_fails rows cols b_search c_search mem i j b c e Hb Hc He).
  - intros Hbs Hcs Hbefore.
    apply (grid_search_first_failure rows cols b_search c_search mem i j b c e);
      assumption.
Qed.

End GridTheorems.

(** ** The constrained simplex search *)

Section FminPosFacts.

Context {F : Type} `{NumPy F} `{Minimizer F}.

(** What an objective wrapped by [pos_func] reports is what the objective
    itself reports at the exponentiated points. *)
Lemma run_log_pos_func {L : Type} (p : plan F) (f : list F -> outcome F)
  (report : list F -> list L) :
  snd (run_log p (fun x => (f (map np_exp x), report (map np_exp x))))
  = concat (map (fun x => report (map np_exp x)) (probes p (fun x => f (map np_exp x)))).
Proof.
  unfold probes. induction p as [x | x k IH]; simpl; [reflexivity |].
  destruct (f (map np_exp x)) as [v | e]; simpl.
  - specialize (IH v).
    destruct (run_log (k v) (fun x => (f (map np_exp x), report (map np_exp x)))) as [r l].
    destruct (run_log (k v) (fun x => (f (map np_exp x), [x]))) as [r' l'].
    simpl in *. rewrite IH. reflexivity.
  - rewrite app_nil_r. reflexivity.
Qed.

(** C4, as the code has it.  [fmin_pos] validates nothing.  For every
    starting guess, with positive components or not, it hands [log x0] to
    the minimizer; when it raises an exception, the minimizer evaluated the
    objective at some point and that evaluation raised it.  So it never
    fails before an evaluation is attempted, and raises no DomainError of
    its own. *)
Theorem fmin_pos_raises_only_from_objective {B : Type}
  (func : list F -> B -> outcome F) (x0 : list F) (args : B) :
  fmin_pos func x0 args = omap (map np_exp) (fmin (pos_func func) (map np_log x0) args)
  /\ forall e : exn,
       fmin_pos func x0 args = Raise e ->
       exists x, x ∈ probes (fmin_plan (map np_log x0)) (fun x => pos_func func x args)
                 /\ func (map np_exp x) args = Raise e.
Proof.
  split; [reflexivity |].
  intros e He. unfold fmin_pos, fmin in He.
  destruct (run (fmin_plan (map np_log x0)) (fun x => pos_func func x args)) as [out | e']
    eqn:Hrun; simpl in He; [discriminate |].
  injection He as ->. apply run_Raise in Hrun. exact Hrun.
Qed.

End FminPosFacts.

Import Ideal.

(** ** The theorems at work on one observation *)

Lemma log_zero : np_log (Fin 0) = NInf.
Proof.
  simpl. destruct (Rlt_dec 0 0) as [Hlt | _]; [lra |].
  destruct (Req_dec_T 0 0) as [_ | Hne]; [reflexivity | contradiction].
Qed.

Lemma log_one : np_log (Fin 1) = Fin 0.
Proof.
  simpl. destruct (Rlt_dec 0 1) as [_ | Hn]; [| lra]. rewrite ln_1. reflexivity.
Qed.

Lemma exp_zero : np_exp (Fin 0) = Fin 1.
Proof. simpl. rewrite exp_0. reflexivity. Qed.

Lemma likelihood_single_ok (a b c : R) :
  c <> 0%R -> (0 < b + 1 * 1)%R ->
  exists v, likelihood_single (gpse (Fin a, Fin b, Fin c)) [Fin 0] [Fin 0] [Fin 1] = Ok v.
Proof.
  intros Hc Hb. unfold likelihood_single. simpl.
  destruct (Req_dec_T c 0) as [Hz | _]; [contradiction |].
  destruct (Rlt_dec 0 (b + 1 * 1)) as [_ | Hn]; [| contradiction].
  eexists. reflexivity.
Qed.

(** C4 as stated fails.  Start the search at [(0, 1)], whose first
    component is not positive, with a minimizer that evaluates the objective
    at its starting point and stops there.  [np.log] turns the guess into
    [(-inf, 0)], the objective is evaluated there, at [(b, c) = (0, 1)], and
    [fmin_pos] returns [(0, 1)]: no DomainError, and an evaluation was
    made. *)
Lemma fmin_pos_accepts_nonpositive_start :
  ~ strictly_positive (Fin 0)
  /\ @fmin_pos npfloat _ probe_start _ (splat3 (@objective npfloat _ single_gauss))
       [Fin 0; Fin 1] one_observation = Ok [Fin 0; Fin 1]
  /\ probes (@fmin_plan _ probe_start (map np_log [Fin 0; Fin 1]))
       (fun x => pos_func (splat3 (@objective npfloat _ single_gauss)) x one_observation)
     = [[NInf; Fin 0]].
Proof.
  split; [simpl; lra |].
  assert (Hobj : exists v,
             pos_func (splat3 (@objective npfloat _ single_gauss)) [NInf; Fin 0]
               one_observation = Ok v).
  { unfold pos_func, splat3, one_observation. cbn [map].
    change (np_exp NInf) with (Fin 0). rewrite exp_zero, objective_pair.
    destruct (likelihood_single_ok (Q2R 0) 0 1) as [v Hv]; [lra | lra |].
    exists (f_neg v). apply omap_Ok. exact Hv. }
  destruct Hobj as [v Hv].
  unfold fmin_pos, fmin, probes. cbn [map]. rewrite log_zero, log_one.
  cbn [fmin_plan probe_start run run_log]. rewrite Hv.
  split; [| reflexivity].
  cbn [obind map]. change (np_exp NInf) with (Fin 0). rewrite exp_zero. reflexivity.
Qed.

(** The surface of a 2-by-2 sweep over one observation. *)
Lemma grid_search_surface_witness :
  exists mem',
    @grid_search npfloat _ single_gauss 2 2 [Fin 1; Fin 2] [Fin 1; Fin 2] demo_memory
    = (Ok tt, mem')
    /\ shape (likelihoods mem') 2 2
    /\ forall i j, i < 2 -> j < 2 ->
         exists b c v, [Fin 1; Fin 2] !! i = Some b /\ [Fin 1; Fin 2] !! j = Some c
           /\ @likelihood npfloat single_gauss (gpse (lit 0, b, c))
                (t demo_memory) (d demo_memory) (sigma demo_memory) = Ok v
           /\ cell (likelihoods mem') i j = Some v.
Proof.
  apply (@grid_search_surface npfloat _ single_gauss 2 [Fin 1; Fin 2] [Fin 1; Fin 2]
           demo_memory); [reflexivity | reflexivity |].
  intros i j b c Hb Hc.
  destruct i as [| [| i]]; simpl in Hb; try discriminate; injection Hb as <-;
    destruct j as [| [| j]]; simpl in Hc; try discriminate; injection Hc as <-;
    apply (likelihood_single_ok (Q2R 0)); lra.
Defined.

(** A sweep whose second candidate for [c] is zero: the evaluation at
    [(0, 1)] raises DomainError and so does the sweep. *)
Lemma grid_search_propagates_failure_witness :
  (exists e' mem',
      @grid_search npfloat _ single_gauss 2 2 [Fin 1; Fin 2] [Fin 1; Fin 0] demo_memory
      = (Raise e', mem'))
  /\ exists mem',
      @grid_search npfloat _ single_gauss 2 2 [Fin 1; Fin 2] [Fin 1; Fin 0] demo_memory
      = (Raise DomainError, mem')
      /\ (forall i' j' b' c' v, i' < 0 \/ (i' = 0 /\ j' < 1) ->
            [Fin 1; Fin 2] !! i' = Some b' -> [Fin 1; Fin 0] !! j' = Some c' ->
            @likelihood npfloat single_gauss (gpse (lit 0, b', c'))
              (t demo_memory) (d demo_memory) (sigma demo_memory) = Ok v ->
            cell (likelihoods mem') i' j' = Some v)
      /\ (forall i' j', i' < 2 -> j' < 2 -> ~ (i' < 0 \/ (i' = 0 /\ j' < 1)) ->
            cell (likelihoods mem') i' j' = Some (lit 0)).
Proof.
  destruct (@grid_search_propagates_failure npfloat _ single_gauss 2 2
              [Fin 1; Fin 2] [Fin 1; Fin 0] demo_memory 0 1 (Fin 1) (Fin 0) DomainError)
    as [Hfails Hfirst].
  - reflexivity.
  - reflexivity.
  - simpl. unfold likelihood_single. simpl.
    destruct (Req_dec_T 0 0) as [_ | Hne]; [reflexivity | contradiction].
  - split; [exact Hfails |]. apply Hfirst.
    + simpl. lia.
    + simpl. lia.
    + intros i' j' b' c' [Hlt | [-> Hj]] Hb Hc; [lia |].
      destruct j' as [| j']; [| lia].
      simpl in Hb, Hc. injection Hb as <-. injection Hc as <-.
      apply (likelihood_single_ok (Q2R 0)); lra.
Defined.

(** ** Side effects of an evaluation *)

Section ByReferenceFacts.

Context {F : Type} `{NumPy F} `{RbfGaussRef F}.

Lemma after_call_same (m : memory F) : after_call m (t m, d m, sigma m) = m.
Proof. destruct m. reflexivity. Qed.

(** Whatever the method does to the arrays shows in memory after the
    objective: the objective hides no write. *)
Lemma objective_ref_shows_writes (x0 x1 : F) (rest : list F) (m : memory F) :
  snd (objective_ref (x0 :: x1 :: rest) m) = m ->
  snd (likelihood_ref (gpse (lit 0, x0, x1)) (t m) (d m) (sigma m)) = (t m, d m, sigma m).
Proof.
  unfold objective_ref. simpl.
  destruct (likelihood_ref _ _ _ _) as [l [[t' d'] s']]. simpl.
  intros <-. reflexivity.
Qed.

Lemma grid_cell_ref_pure (i j : nat) (b_test c_test : F) (m : memory F) :
  side_effect_free ->
  grid_cell_ref i b_test j c_test m = @grid_cell F _ returned_value i b_test j c_test m.
Proof.
  intros Hpure. unfold grid_cell_ref, grid_cell. simpl.
  specialize (Hpure (gpse (lit 0, b_test, c_test)) (t m) (d m) (sigma m)).
  destruct (likelihood_ref _ _ _ _) as [l arrays]. simpl in *. subst arrays.
  rewrite after_call_same. reflexivity.
Qed.


End ByReferenceFacts.

(** ** Side effects, on one observation *)

Lemma single_gauss_ref_side_effect_free : @side_effect_free npfloat single_gauss_ref.
Proof. intros gp t d sigma. reflexivity. Qed.


Import Float64.

(** ** The search on IEEE doubles: what [np.exp] guarantees *)

Section Float64Facts.

Context (N : NumPy float) {B : Type} `{Minimizer float}.

Lemma map_exp_positive_from_745 (x : list float) :
  exp_positive_from_745 N ->
  Forall at_least_minus_745 x -> Forall positive64 (map (@np_exp float N) x).
Proof.
  intros Hexp. induction 1 as [| a x Ha _ IH]; cbn [map]; constructor;
    [apply Hexp; exact Ha | exact IH].
Qed.

(** C3, as the code has it.  Run the search with an objective that
    reports the argument of each call it receives.  The run is the one
    [fmin_pos] performs, and the reported calls are, in order, the points
    the minimizer probed, each with [np.exp] applied to every component.  A
    call that comes from a probe whose components are all at least -745 has
    strictly positive components only, [np.exp] being strictly positive from
    there up. *)
Theorem pos_func_calls_func_at_exp
  (func : list float -> B -> outcome float) (x0 : list float) (args : B) :
  exp_positive_from_745 N ->
  let p := fmin_plan (map (@np_log float N) x0) in
  let traced := run_log p (fun x => @pos_func float N B _ (logged func) x args) in
  fst traced = fmin (@pos_func float N B _ func) (map (@np_log float N) x0) args
  /\ Forall2 (fun x y => y = map (@np_exp float N) x
                         /\ (Forall at_least_minus_745 x -> Forall positive64 y))
       (probes p (fun x => @pos_func float N B _ func x args)) (snd traced).
Proof.
  intros Hexp p traced. split.
  - unfold traced. rewrite run_log_fst. reflexivity.
  - unfold traced, pos_func, logged.
    rewrite (@run_log_pos_func float N _ p (fun y => func y args) (fun y => [y])).
    induction (probes p (fun x => func (map np_exp x) args)) as [| x xs IH]; simpl.
    + constructor.
    + constructor; [| exact IH].
      split; [reflexivity | apply map_exp_positive_from_745; exact Hexp].
Qed.


End Float64Facts.

Lemma stand_in_underflows : exp_underflows stand_in.
Proof. reflexivity. Qed.

Lemma stand_in_positive_from_745 : exp_positive_from_745 stand_in.
Proof. intros x Hx. simpl. rewrite Hx. reflexivity. Qed.

(** C3 as stated fails on doubles.  Let the minimizer probe the finite
    point [(-746, 0)].  [pos_func] calls the objective at
    [(np.exp(-746.0), np.exp(0.0))], whose first component is [0.0] and so
    not strictly positive.  No NumPy whose [exp] underflows at -746, as the
    real one does, satisfies the claim. *)
Lemma pos_func_calls_at_zero :
  ~ exists N : NumPy float, exp_underflows N /\ calls_always_positive N.
Proof.
  intros (N & Hunder & Hclaim).
  specialize (Hclaim unit (probe_at [(-746)%float; 0%float]) (fun _ _ => Ok 0%float) [] tt).
  unfold probes, pos_func, logged in Hclaim. simpl in Hclaim.
  inversion Hclaim as [| x y xs ys [_ Hpos] _]; subst.
  assert (Hfin : Forall finite64 [(-746)%float; 0%float]) by (repeat constructor).
  specialize (Hpos Hfin). inversion Hpos as [| v vs Hv _]; subst.
  unfold positive64 in Hv. unfold exp_underflows in Hunder. rewrite Hunder in Hv.
  vm_compute in Hv. discriminate.
Qed.


(** A probe at [(-1, 0)], with the stand-in. *)
Lemma pos_func_calls_func_at_exp_witness :
  let p := @fmin_plan float (probe_at [(-1)%float; 0%float]) (map (@np_log float stand_in) [1%float; 1%float]) in
  let traced := run_log p (fun x => @pos_func float stand_in unit _ (logged (fun _ _ => Ok 0%float)) x tt) in
  fst traced = @fmin float (probe_at [(-1)%float; 0%float]) unit
                 (@pos_func float stand_in unit _ (fun _ _ => Ok 0%float))
                 (map (@np_log float stand_in) [1%float; 1%float]) tt
  /\ Forall2 (fun x y => y = map (@np_exp float stand_in) x
                         /\ (Forall at_least_minus_745 x -> Forall positive64 y))
       (probes p (fun x => @pos_func float stand_in unit _ (fun _ _ => Ok 0%float) x tt))
       (snd traced).
Proof.
  apply (@pos_func_calls_func_at_exp stand_in unit (probe_at [(-1)%float; 0%float])
           (fun _ _ => Ok 0%float) [1%float; 1%float] tt).
  exact stand_in_positive_from_745.
Defined.


(** * Further properties of the sweep and of the search *)

Section SweepFacts.
Context {F : Type} `{NumPy F} `{RbfGauss F}.

Lemma enumerate_from_elem_inv {A : Type} (xs : list A) (k i : nat) (x : A) :
  (i, x) ∈ enumerate_from k xs -> k <= i /\ xs !! (i - k) = Some x.
Proof.
  revert k. induction xs as [| y xs IH]; intros k Hin; simpl in Hin.
  - inversion Hin.
  - apply elem_of_cons in Hin as [Heq | Hin].
    + injection Heq as -> ->. split; [lia |]. replace (k - k) with 0 by lia. reflexivity.
    + destruct (IH (S k) Hin) as [Hle Hx]. split; [lia |].
      replace (i - k) with (S (i - S k)) by lia. exact Hx.
Qed.

Lemma enumerate_elem_inv {A : Type} (xs : list A) (i : nat) (x : A) :
  (i, x) ∈ enumerate xs -> xs !! i = Some x.
Proof.
  intros Hin. destruct (enumerate_from_elem_inv xs 0 i x Hin) as [_ Hx].
  replace (i - 0) with i in Hx by lia. exact Hx.
Qed.

Lemma for_each_invariant {A : Type} (xs : list A) (body : A -> M unit)
  (P : memory F -> Prop) (m m' : memory F) (r : outcome unit) :
  (forall x m1 r1 m2, x ∈ xs -> P m1 -> body x m1 = (r1, m2) -> P m2) ->
  P m -> for_each xs body m = (r, m') -> P m'.
Proof.
  revert m. induction xs as [| x xs IH]; intros m Hbody Hm; simpl.
  - intros [= _ <-]. exact Hm.
  - destruct (body x m) as [[u | e] m1] eqn:Hb.
    + apply IH.
      * intros y m2 r2 m3 Hy. apply Hbody. right. exact Hy.
      * eapply Hbody; [left | exact Hm | exact Hb].
    + intros [= _ <-]. eapply Hbody; [left | exact Hm | exact Hb].
Qed.

Lemma for_each_Raise_elem {A : Type} (xs : list A) (body : A -> M unit)
  (P : memory F -> Prop) (m m' : memory F) (e : exn) :
  (forall x m1 r1 m2, x ∈ xs -> P m1 -> body x m1 = (r1, m2) -> P m2) ->
  P m -> for_each xs body m = (Raise e, m') ->
  exists x m1, x ∈ xs /\ P m1 /\ body x m1 = (Raise e, m').
Proof.
  revert m. induction xs as [| y xs IH]; intros m Hbody Hm; simpl.
  - discriminate.
  - destruct (body y m) as [[u | e'] m1] eqn:Hb.
    + intros Hrun.
      destruct (IH m1) as (x & m2 & Hx & Hm2 & Hbx).
      * intros z m2 r2 m3 Hz. apply Hbody. right. exact Hz.
      * eapply Hbody; [left | exact Hm | exact Hb].
      * exact Hrun.
      * exists x, m2. split; [right; exact Hx | split; assumption].
    + intros [= -> <-]. exists y, m. split; [left | split; assumption].
Qed.

Lemma for_each_Ok_elem {A : Type} (xs : list A) (body : A -> M unit)
  (P : memory F -> Prop) (m m' : memory F) (u : unit) :
  (forall x m1 r1 m2, x ∈ xs -> P m1 -> body x m1 = (r1, m2) -> P m2) ->
  P m -> for_each xs body m = (Ok u, m') ->
  forall x, x ∈ xs -> exists m1 m2, P m1 /\ body x m1 = (Ok tt, m2).
Proof.
  revert m. induction xs as [| y xs IH]; intros m Hbody Hm Hrun x Hx.
  - inversion Hx.
  - simpl in Hrun. destruct (body y m) as [[[] | e] m1] eqn:Hb; [| discriminate].
    apply elem_of_cons in Hx as [-> | Hx].
    + exists m, m1. split; [exact Hm | exact Hb].
    + apply (IH m1).
      * intros z m2 r2 m3 Hz. apply Hbody. right. exact Hz.
      * eapply Hbody; [left | exact Hm | exact Hb].
      * exact Hrun.
      * exact Hx.
Qed.

Lemma setitem2_Ok_bounds (a a' : list (list F)) (i j : nat) (v : F) (rows cols : nat) :
  shape a rows cols -> setitem2 a i j v = Ok a' -> i < rows /\ j < cols.
Proof.
  unfold setitem2, shape. intros [Hlen Hrows] Hs.
  destruct (a !! i) as [row |] eqn:Hrow; [| discriminate].
  destruct (decide (j < length row)) as [Hj |]; [| discriminate].
  split; [apply lookup_lt_Some in Hrow; lia | rewrite <- (Hrows i row Hrow); exact Hj].
Qed.

Lemma setitem2_Raise (a : list (list F)) (i j : nat) (v : F) (rows cols : nat) (e : exn) :
  shape a rows cols -> setitem2 a i j v = Raise e -> e = IndexError /\ ~ (i < rows /\ j < cols).
Proof.
  intros Hshape Hs. split.
  - unfold setitem2 in Hs. destruct (a !! i) as [row |]; [| congruence].
    destruct (decide (j < length row)); congruence.
  - intros [Hi Hj].
    destruct (setitem2_in_bounds a i j v rows cols Hshape Hi Hj) as [a' Ha'].
    congruence.
Qed.

Lemma sweep_inv_start (mem : memory F) (rows cols nb nc : nat) :
  sweep_inv mem rows cols nb nc (set_likelihoods (np_zeros rows cols) mem).
Proof.
  split; [apply same_data_zeros | split; [apply np_zeros_shape |]].
  intros i j Hi Hj _. simpl. apply np_zeros_cell; assumption.
Qed.

Lemma grid_cell_sweep_inv (m0 : memory F) (rows cols nb nc i j : nat) (b c : F)
  (m1 m2 : memory F) (r : outcome unit) :
  i < nb -> j < nc ->
  sweep_inv m0 rows cols nb nc m1 -> grid_cell i b j c m1 = (r, m2) ->
  sweep_inv m0 rows cols nb nc m2.
Proof.
  intros Hi Hj Hinv. unfold grid_cell.
  destruct (likelihood _ _ _ _) as [v | e]; [| intros [= _ <-]; exact Hinv].
  destruct (setitem2 (likelihoods m1) i j v) as [L | e] eqn:HL;
    intros [= _ <-]; [| exact Hinv].
  destruct Hinv as (Hd & Hs & Hz).
  split; [exact Hd | split; [eapply setitem2_shape; [exact HL | exact Hs] |]].
  intros i' j' Hi' Hj' Hout. simpl.
  rewrite (setitem2_frame _ _ _ _ _ HL) by (destruct (decide (i' = i)); [right | left]; lia).
  apply Hz; assumption.
Qed.

Lemma inner_loop_sweep_inv (m0 : memory F) (rows cols nb i : nat) (b : F) (cs : list F)
  (m1 m2 : memory F) (r : outcome unit) :
  i < nb ->
  sweep_inv m0 rows cols nb (length cs) m1 -> inner_loop i b cs m1 = (r, m2) ->
  sweep_inv m0 rows cols nb (length cs) m2.
Proof.
  intros Hi Hinv. unfold inner_loop.
  apply (for_each_invariant _ _ (sweep_inv m0 rows cols nb (length cs))); [| exact Hinv].
  intros [j c] m3 r1 m4 Hin Hinv3. simpl.
  apply enumerate_elem_inv, lookup_lt_Some in Hin.
  apply grid_cell_sweep_inv; assumption.
Qed.

Lemma grid_search_sweep_inv (rows cols : nat) (bs cs : list F) (mem mem' : memory F)
  (r : outcome unit) :
  grid_search rows cols bs cs mem = (r, mem') ->
  sweep_inv mem rows cols (length bs) (length cs) mem'.
Proof.
  unfold grid_search.
  apply (for_each_invariant _ _ (sweep_inv mem rows cols (length bs) (length cs)));
    [| apply sweep_inv_start].
  intros [i b] m1 r1 m2 Hin Hinv. simpl.
  apply enumerate_elem_inv, lookup_lt_Some in Hin.
  apply inner_loop_sweep_inv; assumption.
Qed.

(** Where a step of the sweep stands: some memory of the sweep, and the
    outcome of the iteration for the pair [(i, j)] in it. *)
Lemma outer_body_sweep_inv (rows cols : nat) (bs cs : list F) (mem : memory F) :
  forall (ib : nat * F) (m1 : memory F) (r1 : outcome unit) (m2 : memory F),
    ib ∈ enumerate bs ->
    sweep_inv mem rows cols (length bs) (length cs) m1 ->
    inner_loop (fst ib) (snd ib) cs m1 = (r1, m2) ->
    sweep_inv mem rows cols (length bs) (length cs) m2.
Proof.
  intros [i b] m1 r1 m2 Hin Hinv. simpl.
  apply enumerate_elem_inv, lookup_lt_Some in Hin.
  apply inner_loop_sweep_inv; assumption.
Qed.

Lemma inner_body_sweep_inv (rows cols nb i : nat) (b : F) (cs : list F) (mem : memory F) :
  i < nb ->
  forall (jc : nat * F) (m1 : memory F) (r1 : outcome unit) (m2 : memory F),
    jc ∈ enumerate cs ->
    sweep_inv mem rows cols nb (length cs) m1 ->
    grid_cell i b (fst jc) (snd jc) m1 = (r1, m2) ->
    sweep_inv mem rows cols nb (length cs) m2.
Proof.
  intros Hi [j c] m1 r1 m2 Hin Hinv. simpl.
  apply enumerate_elem_inv, lookup_lt_Some in Hin.
  apply grid_cell_sweep_inv; assumption.
Qed.

(** A sweep that raises does so in the iteration of some candidate pair,
    run in a memory that satisfies the invariant. *)
Lemma grid_search_Raise_cell (rows cols : nat) (bs cs : list F) (mem mem' : memory F)
  (e : exn) :
  grid_search rows cols bs cs mem = (Raise e, mem') ->
  exists i j b c m1, bs !! i = Some b /\ cs !! j = Some c
    /\ sweep_inv mem rows cols (length bs) (length cs) m1
    /\ grid_cell i b j c m1 = (Raise e, mem').
Proof.
  unfold grid_search. intros Hrun.
  destruct (for_each_Raise_elem (enumerate bs) _
              (sweep_inv mem rows cols (length bs) (length cs)) _ _ _
              (outer_body_sweep_inv rows cols bs cs mem)
              (sweep_inv_start mem rows cols (length bs) (length cs)) Hrun)
    as ([i b] & m1 & Hib & Hinv1 & Hin).
  simpl in Hin. unfold inner_loop in Hin.
  assert (Hi : i < length bs) by (apply enumerate_elem_inv, lookup_lt_Some in Hib; exact Hib).
  destruct (for_each_Raise_elem (enumerate cs) _
              (sweep_inv mem rows cols (length bs) (length cs)) _ _ _
              (inner_body_sweep_inv rows cols (length bs) i b cs mem Hi)
              Hinv1 Hin)
    as ([j c] & m3 & Hjc & Hinv3 & Hcell).
  simpl in Hcell.
  exists i, j, b, c, m3.
  split; [apply enumerate_elem_inv; exact Hib |].
  split; [apply enumerate_elem_inv; exact Hjc |].
  split; [exact Hinv3 | exact Hcell].
Qed.

(** A sweep that ends normally ran the iteration of every candidate pair
    to a normal end, in a memory that satisfies the invariant. *)
Lemma grid_search_Ok_cell (rows cols : nat) (bs cs : list F) (mem mem' : memory F)
  (u : unit) (i j : nat) (b c : F) :
  grid_search rows cols bs cs mem = (Ok u, mem') ->
  bs !! i = Some b -> cs !! j = Some c ->
  exists m1 m2, sweep_inv mem rows cols (length bs) (length cs) m1
    /\ grid_cell i b j c m1 = (Ok tt, m2).
Proof.
  unfold grid_search. intros Hrun Hb Hc.
  destruct (for_each_Ok_elem (enumerate bs) _
              (sweep_inv mem rows cols (length bs) (length cs)) _ _ _
              (outer_body_sweep_inv rows cols bs cs mem)
              (sweep_inv_start mem rows cols (length bs) (length cs)) Hrun (i, b))
    as (m1 & m2 & Hinv1 & Hin).
  { apply (enumerate_from_elem bs 0 i b Hb). }
  simpl in Hin. unfold inner_loop in Hin.
  assert (Hi : i < length bs) by (apply lookup_lt_Some in Hb; exact Hb).
  destruct (for_each_Ok_elem (enumerate cs) _
              (sweep_inv mem rows cols (length bs) (length cs)) _ _ _
              (inner_body_sweep_inv rows cols (length bs) i b cs mem Hi)
              Hinv1 Hin (j, c))
    as (m3 & m4 & Hinv3 & Hcell).
  { apply (enumerate_from_elem cs 0 j c Hc). }
  simpl in Hcell. exists m3, m4. split; [exact Hinv3 | exact Hcell].
Qed.

Lemma grid_cell_Ok_bounds (rows cols nb nc i j : nat) (b c : F) (m0 m1 m2 : memory F)
  (u : unit) :
  sweep_inv m0 rows cols nb nc m1 -> grid_cell i b j c m1 = (Ok u, m2) ->
  i < rows /\ j < cols.
Proof.
  intros (_ & Hs & _). unfold grid_cell.
  destruct (likelihood _ _ _ _) as [v | e]; [| discriminate].
  destruct (setitem2 (likelihoods m1) i j v) as [L | e] eqn:HL; [| discriminate].
  intros _. eapply setitem2_Ok_bounds; [exact Hs | exact HL].
Qed.

Lemma grid_cell_Raise_cause (rows cols nb nc i j : nat) (b c : F) (m0 m1 m2 : memory F)
  (e : exn) :
  sweep_inv m0 rows cols nb nc m1 -> grid_cell i b j c m1 = (Raise e, m2) ->
  grid_value m0 b c = Raise e
  \/ (e = IndexError /\ ~ (i < rows /\ j < cols) /\ exists v, grid_value m0 b c = Ok v).
Proof.
  intros (Hd & Hs & _). unfold grid_cell.
  rewrite <- (grid_value_same_data m1 m0) by exact Hd. unfold grid_value.
  destruct (likelihood _ _ _ _) as [v | e']; [| intros [= -> _]; left; reflexivity].
  destruct (setitem2 (likelihoods m1) i j v) as [L | e'] eqn:HL; [discriminate |].
  intros [= -> _]. right.
  destruct (setitem2_Raise _ _ _ _ rows cols e Hs HL) as [-> Hout].
  split; [reflexivity | split; [exact Hout | eauto]].
Qed.

(** ** The sweep as a whole *)

Lemma grid_search_fits (rows cols : nat) (bs cs : list F) (mem mem' : memory F)
  (u : unit) (i j : nat) (b c : F) :
  grid_search rows cols bs cs mem = (Ok u, mem') ->
  bs !! i = Some b -> cs !! j = Some c -> i < rows /\ j < cols.
Proof.
  intros Hrun Hb Hc.
  destruct (grid_search_Ok_cell rows cols bs cs mem mem' u i j b c Hrun Hb Hc)
    as (m1 & m2 & Hinv & Hcell).
  eapply grid_cell_Ok_bounds; [exact Hinv | exact Hcell].
Qed.

Lemma grid_search_Ok_filled (rows cols : nat) (bs cs : list F) (mem mem' : memory F)
  (u : unit) (i j : nat) (b c : F) :
  grid_search rows cols bs cs mem = (Ok u, mem') ->
  bs !! i = Some b -> cs !! j = Some c ->
  exists v, grid_value mem b c = Ok v /\ cell (likelihoods mem') i j = Some v.
Proof.
  intros Hrun Hb Hc.
  assert (Hbs : length bs <= rows).
  { destruct (le_lt_dec (length bs) rows) as [Hle | Hlt]; [exact Hle |].
    destruct (lookup_lt_is_Some_2 bs rows Hlt) as [b' Hb'].
    destruct (grid_search_fits rows cols bs cs mem mem' u rows j b' c Hrun Hb' Hc). lia. }
  assert (Hcs : length cs <= cols).
  { destruct (le_lt_dec (length cs) cols) as [Hle | Hlt]; [exact Hle |].
    destruct (lookup_lt_is_Some_2 cs cols Hlt) as [c' Hc'].
    destruct (grid_search_fits rows cols bs cs mem mem' u i cols b c' Hrun Hb Hc'). lia. }
  destruct (grid_search_ok rows cols bs cs mem Hbs Hcs
              (grid_search_Ok_inv rows cols bs cs mem mem' u Hrun))
    as (mem'' & Hrun' & _ & _ & Hdone & _).
  rewrite Hrun in Hrun'. injection Hrun' as _ <-.
  destruct (grid_search_Ok_inv rows cols bs cs mem mem' u Hrun i j b c Hb Hc) as [v Hv].
  exists v. split; [exact Hv |].
  apply (Hdone i j b c v); [apply lookup_lt_Some in Hb; exact Hb | exact Hb | exact Hc |].
  rewrite (grid_value_same_data _ mem) by apply same_data_zeros. exact Hv.
Qed.

(** X1.  A sweep that ends normally has evaluated every pair of candidates
    with success: each pair indexes a cell inside the array, and that cell
    holds the log likelihood of the pair.  Nothing is assumed about the
    sizes. *)
Theorem grid_search_normal_end (rows cols : nat) (b_search c_search : list F)
  (mem mem' : memory F) (u : unit) :
  grid_search rows cols b_search c_search mem = (Ok u, mem') ->
  forall i j b c, b_search !! i = Some b -> c_search !! j = Some c ->
    i < rows /\ j < cols
    /\ exists v, likelihood (gpse (lit 0, b, c)) (t mem) (d mem) (sigma mem) = Ok v
                 /\ cell (likelihoods mem') i j = Some v.
Proof.
  intros Hrun i j b c Hb Hc.
  destruct (grid_search_fits rows cols b_search c_search mem mem' u i j b c Hrun Hb Hc)
    as [Hi Hj].
  split; [exact Hi | split; [exact Hj |]].
  apply (grid_search_Ok_filled rows cols b_search c_search mem mem' u i j b c Hrun Hb Hc).
Qed.

(** X2.  However the sweep ends, normally or with an exception, it leaves
    [t], [d] and [sigma] as they were and an array of the allocated shape,
    in which every cell that no pair of candidates indexes holds the zero
    of [np.zeros]. *)
Theorem grid_search_keeps_data_and_shape (rows cols : nat) (b_search c_search : list F)
  (mem mem' : memory F) (r : outcome unit) :
  grid_search rows cols b_search c_search mem = (r, mem') ->
  t mem' = t mem /\ d mem' = d mem /\ sigma mem' = sigma mem
  /\ shape (likelihoods mem') rows cols
  /\ forall i j, i < rows -> j < cols ->
       ~ (i < length b_search /\ j < length c_search) ->
       cell (likelihoods mem') i j = Some (lit 0).
Proof.
  intros Hrun.
  destruct (grid_search_sweep_inv rows cols b_search c_search mem mem' r Hrun)
    as ((Ht & Hd & Hs) & Hshape & Hz).
  repeat split; try assumption; apply Hshape.
Qed.

Lemma grid_search_Raise_cause (rows cols : nat) (bs cs : list F) (mem mem' : memory F)
  (e : exn) :
  grid_search rows cols bs cs mem = (Raise e, mem') ->
  exists i j b c, bs !! i = Some b /\ cs !! j = Some c
    /\ (grid_value mem b c = Raise e
        \/ (e = IndexError /\ ~ (i < rows /\ j < cols)
            /\ exists v, grid_value mem b c = Ok v)).
Proof.
  intros Hrun.
  destruct (grid_search_Raise_cell rows cols bs cs mem mem' e Hrun)
    as (i & j & b & c & m1 & Hb & Hc & Hinv & Hcell).
  exists i, j, b, c. split; [exact Hb | split; [exact Hc |]].
  eapply grid_cell_Raise_cause; [exact Hinv | exact Hcell].
Qed.

(** X3.  The only exceptions the sweep raises: the exception of the
    likelihood evaluation for some pair of candidates, or IndexError, and
    then for a pair whose evaluation succeeded and whose cell lies outside
    the array. *)
Theorem grid_search_exceptions (rows cols : nat) (b_search c_search : list F)
  (mem mem' : memory F) (e : exn) :
  grid_search rows cols b_search c_search mem = (Raise e, mem') ->
  exists i j b c, b_search !! i = Some b /\ c_search !! j = Some c
    /\ (likelihood (gpse (lit 0, b, c)) (t mem) (d mem) (sigma mem) = Raise e
        \/ (e = IndexError /\ ~ (i < rows /\ j < cols)
            /\ exists v, likelihood (gpse (lit 0, b, c)) (t mem) (d mem) (sigma mem) = Ok v)).
Proof.
  intros Hrun. apply (grid_search_Raise_cause rows cols b_search c_search mem mem' e Hrun).
Qed.

(** X4.  When some pair of candidates indexes a cell outside the array
    (more candidates than the 30 rows or columns allocated) and every
    evaluation succeeds, the sweep ends with IndexError. *)
Theorem grid_search_out_of_room (rows cols : nat) (b_search c_search : list F)
  (mem : memory F) (i j : nat) (b c : F) :
  b_search !! i = Some b -> c_search !! j = Some c ->
  ~ (i < rows /\ j < cols) ->
  (forall i' j' b' c', b_search !! i' = Some b' -> c_search !! j' = Some c' ->
     exists v, likelihood (gpse (lit 0, b', c')) (t mem) (d mem) (sigma mem) = Ok v) ->
  exists mem', grid_search rows cols b_search c_search mem = (Raise IndexError, mem').
Proof.
  intros Hb Hc Hout Hall.
  destruct (grid_search rows cols b_search c_search mem) as [[u | e] mem'] eqn:Hrun.
  - destruct (grid_search_fits rows cols b_search c_search mem mem' u i j b c Hrun Hb Hc).
    contradiction Hout. split; assumption.
  - destruct (grid_search_Raise_cause rows cols b_search c_search mem mem' e Hrun)
      as (i' & j' & b' & c' & Hb' & Hc' & [Hfail | (-> & _)]).
    + destruct (Hall i' j' b' c' Hb' Hc') as [v Hv]. unfold grid_value in Hfail.
      rewrite Hfail in Hv. discriminate.
    + exists mem'. reflexivity.
Qed.

End SweepFacts.

Section PlotFacts.
Context {F : Type} `{NumPy F} `{RbfGauss F}.

Lemma column_lookup (a : list (list F)) (i j : nat) :
  (forall k row, a !! k = Some row -> j < length row) ->
  column j a !! i = cell a i j.
Proof.
  unfold column, cell. revert i. induction a as [| row a IH]; intros i Hrows; [reflexivity |].
  simpl. destruct (lookup_lt_is_Some_2 row j (Hrows 0 row eq_refl)) as [v Hv].
  rewrite Hv. simpl. destruct i as [| i]; simpl; [symmetry; exact Hv |].
  apply IH. intros k row' Hk. apply (Hrows (S k) row'). exact Hk.
Qed.

Lemma column_length (a : list (list F)) (j : nat) :
  (forall k row, a !! k = Some row -> j < length row) ->
  length (column j a) = length a.
Proof.
  unfold column. induction a as [| row a IH]; intros Hrows; [reflexivity |].
  simpl. destruct (lookup_lt_is_Some_2 row j (Hrows 0 row eq_refl)) as [v Hv].
  rewrite Hv. simpl. f_equal.
  apply IH. intros k row' Hk. apply (Hrows (S k) row'). exact Hk.
Qed.

Lemma np_T_lookup (a : list (list F)) (rows cols j : nat) :
  shape a rows cols -> 0 < rows ->
  np_T a !! j = if decide (j < cols) then Some (column j a) else None.
Proof.
  intros [Hlen Hrows] Hpos. destruct a as [| row a]; [simpl in Hlen; lia |].
  unfold np_T. rewrite (Hrows 0 row eq_refl).
  rewrite list_lookup_fmap. destruct (decide (j < cols)) as [Hj | Hj].
  - rewrite lookup_seq_lt by exact Hj. reflexivity.
  - rewrite lookup_seq_ge by lia. reflexivity.
Qed.

Lemma np_T_cell (a : list (list F)) (rows cols i j : nat) :
  shape a rows cols -> cell (np_T a) j i = cell a i j.
Proof.
  intros Hshape. destruct (decide (0 < rows)) as [Hpos | Hzero].
  - unfold cell at 1. rewrite (np_T_lookup a rows cols j Hshape Hpos).
    destruct Hshape as [Hlen Hrows].
    destruct (decide (j < cols)) as [Hj | Hj].
    + apply column_lookup. intros k row Hk. rewrite (Hrows k row Hk). exact Hj.
    + unfold cell. destruct (a !! i) as [row |] eqn:Hrow; [| reflexivity].
      symmetry. apply lookup_ge_None. rewrite (Hrows i row Hrow). lia.
  - destruct Hshape as [Hlen _]. destruct a; [reflexivity | simpl in Hlen; lia].
Qed.

Lemma np_T_shape (a : list (list F)) (rows cols : nat) :
  shape a rows cols -> 0 < rows -> shape (np_T a) cols rows.
Proof.
  intros Hshape Hpos. split.
  - destruct Hshape as [Hlen Hrows]. destruct a as [| row a]; [simpl in Hlen; lia |].
    unfold np_T. rewrite length_map, length_seq. apply (Hrows 0 row eq_refl).
  - intros j col Hcol. rewrite (np_T_lookup a rows cols j Hshape Hpos) in Hcol.
    destruct (decide (j < cols)) as [Hj |]; [| discriminate].
    injection Hcol as <-. destruct Hshape as [Hlen Hrows]. rewrite column_length; [exact Hlen |].
    intros k row Hk. rewrite (Hrows k row Hk). exact Hj.
Qed.

(** X6.  Line 75 plots [likelihoods.T] against [b_search] and [c_search].
    After a sweep that ends normally the transposed array has one row per
    column of the surface, and its entry [(j, i)] is the log likelihood for
    [(b_search[i], c_search[j])]. *)
Theorem plotted_surface (rows cols : nat) (b_search c_search : list F)
  (mem mem' : memory F) (u : unit) :
  grid_search rows cols b_search c_search mem = (Ok u, mem') ->
  let Z := np_T (likelihoods mem') in
  (0 < rows -> shape Z cols rows)
  /\ forall i j b c, b_search !! i = Some b -> c_search !! j = Some c ->
       exists v, likelihood (gpse (lit 0, b, c)) (t mem) (d mem) (sigma mem) = Ok v
                 /\ cell Z j i = Some v.
Proof.
  intros Hrun Z.
  destruct (grid_search_sweep_inv rows cols b_search c_search mem mem' (Ok u) Hrun)
    as (_ & Hshape & _).
  split.
  - intros Hpos. apply np_T_shape; assumption.
  - intros i j b c Hb Hc.
    destruct (grid_search_Ok_filled rows cols b_search c_search mem mem' u i j b c
                Hrun Hb Hc) as (v & Hv & Hcell).
    exists v. split; [exact Hv |].
    unfold Z. rewrite (np_T_cell _ rows cols i j Hshape). exact Hcell.
Qed.

End PlotFacts.

Lemma log_nonpositive (r : R) :
  (r <= 0)%R -> ~ real_valued (np_log (Fin r)) /\ ~ strictly_positive (np_exp (np_log (Fin r))).
Proof.
  intros Hr. simpl. destruct (Rlt_dec 0 r) as [Hlt | _]; [lra |].
  destruct (Req_dec_T r 0) as [_ | _]; simpl; split; try tauto; lra.
Qed.

Section IdealRestart.

Context {B : Type} `{Minimizer npfloat}.


End IdealRestart.

(** ** The further properties at work on one observation *)

Lemma demo_sweep_ok :
  exists mem',
    @grid_search npfloat _ single_gauss 2 2 [Fin 1; Fin 2] [Fin 1; Fin 2] demo_memory
    = (Ok tt, mem').
Proof.
  destruct (@grid_search_ok npfloat _ single_gauss 2 2 [Fin 1; Fin 2] [Fin 1; Fin 2]
              demo_memory) as (mem' & Hrun & _); [simpl; lia | simpl; lia | | eauto].
  intros i j b c Hb Hc.
  destruct i as [| [| i]]; simpl in Hb; try discriminate; injection Hb as <-;
    destruct j as [| [| j]]; simpl in Hc; try discriminate; injection Hc as <-;
    apply (likelihood_single_ok (Q2R 0)); lra.
Qed.

Lemma demo_sweep_raise :
  exists mem',
    @grid_search npfloat _ single_gauss 2 2 [Fin 1; Fin 2] [Fin 1; Fin 0] demo_memory
    = (Raise DomainError, mem').
Proof.
  destruct (@grid_search_first_failure npfloat _ single_gauss 2 2
              [Fin 1; Fin 2] [Fin 1; Fin 0] demo_memory 0 1 (Fin 1) (Fin 0) DomainError)
    as (mem' & Hrun & _); [simpl; lia | simpl; lia | reflexivity | reflexivity | | | eauto].
  - simpl. unfold likelihood_single. simpl.
    destruct (Req_dec_T 0 0) as [_ | Hne]; [reflexivity | contradiction].
  - intros i' j' b' c' [Hlt | [-> Hj]] Hb Hc; [lia |].
    destruct j' as [| j']; [| lia].
    simpl in Hb, Hc. injection Hb as <-. injection Hc as <-.
    apply (likelihood_single_ok (Q2R 0)); lra.
Qed.

Lemma grid_search_normal_end_witness :
  exists mem',
    @grid_search npfloat _ single_gauss 2 2 [Fin 1; Fin 2] [Fin 1; Fin 2] demo_memory
    = (Ok tt, mem')
    /\ forall i j b c, [Fin 1; Fin 2] !! i = Some b -> [Fin 1; Fin 2] !! j = Some c ->
         i < 2 /\ j < 2
         /\ exists v, @likelihood npfloat single_gauss (gpse (lit 0, b, c))
                        (t demo_memory) (d demo_memory) (sigma demo_memory) = Ok v
                      /\ cell (likelihoods mem') i j = Some v.
Proof.
  destruct demo_sweep_ok as [mem' Hrun]. exists mem'. split; [exact Hrun |].
  exact (@grid_search_normal_end npfloat _ single_gauss 2 2 [Fin 1; Fin 2] [Fin 1; Fin 2]
           demo_memory mem' tt Hrun).
Defined.

Lemma grid_search_keeps_data_and_shape_witness :
  exists r mem',
    @grid_search npfloat _ single_gauss 3 3 [Fin 1; Fin 2] [Fin 1; Fin 0] demo_memory
    = (r, mem')
    /\ t mem' = t demo_memory /\ d mem' = d demo_memory /\ sigma mem' = sigma demo_memory
    /\ shape (likelihoods mem') 3 3
    /\ forall i j, i < 3 -> j < 3 -> ~ (i < 2 /\ j < 2) ->
         cell (likelihoods mem') i j = Some (lit 0).
Proof.
  destruct (@grid_search npfloat _ single_gauss 3 3 [Fin 1; Fin 2] [Fin 1; Fin 0]
              demo_memory) as [r mem'] eqn:Hrun.
  exists r, mem'. split; [reflexivity |].
  exact (@grid_search_keeps_data_and_shape npfloat _ single_gauss 3 3
           [Fin 1; Fin 2] [Fin 1; Fin 0] demo_memory mem' r Hrun).
Defined.

Lemma grid_search_exceptions_witness :
  exists i j b c, [Fin 1; Fin 2] !! i = Some b /\ [Fin 1; Fin 0] !! j = Some c
    /\ (@likelihood npfloat single_gauss (gpse (lit 0, b, c))
          (t demo_memory) (d demo_memory) (sigma demo_memory) = Raise DomainError
        \/ (DomainError = IndexError /\ ~ (i < 2 /\ j < 2)
            /\ exists v, @likelihood npfloat single_gauss (gpse (lit 0, b, c))
                 (t demo_memory) (d demo_memory) (sigma demo_memory) = Ok v)).
Proof.
  destruct demo_sweep_raise as [mem' Hrun].
  exact (@grid_search_exceptions npfloat _ single_gauss 2 2
           [Fin 1; Fin 2] [Fin 1; Fin 0] demo_memory mem' DomainError Hrun).
Defined.

Lemma grid_search_out_of_room_witness :
  exists mem',
    @grid_search npfloat _ single_gauss 1 1 [Fin 1; Fin 2] [Fin 1] demo_memory
    = (Raise IndexError, mem').
Proof.
  apply (@grid_search_out_of_room npfloat _ single_gauss 1 1 [Fin 1; Fin 2] [Fin 1]
           demo_memory 1 0 (Fin 2) (Fin 1)); [reflexivity | reflexivity | lia |].
  intros i j b c Hb Hc.
  destruct i as [| [| i]]; simpl in Hb; try discriminate; injection Hb as <-;
    destruct j as [| j]; simpl in Hc; try discriminate; injection Hc as <-;
    apply (likelihood_single_ok (Q2R 0)); lra.
Defined.

Lemma plotted_surface_witness :
  exists mem',
    @grid_search npfloat _ single_gauss 2 2 [Fin 1; Fin 2] [Fin 1; Fin 2] demo_memory
    = (Ok tt, mem')
    /\ (0 < 2 -> shape (np_T (likelihoods mem')) 2 2)
    /\ forall i j b c, [Fin 1; Fin 2] !! i = Some b -> [Fin 1; Fin 2] !! j = Some c ->
         exists v, @likelihood npfloat single_gauss (gpse (lit 0, b, c))
                     (t demo_memory) (d demo_memory) (sigma demo_memory) = Ok v
                   /\ cell (np_T (likelihoods mem')) j i = Some v.
Proof.
  destruct demo_sweep_ok as [mem' Hrun]. exists mem'. split; [exact Hrun |].
  exact (@plotted_surface npfloat _ single_gauss 2 2 [Fin 1; Fin 2] [Fin 1; Fin 2]
           demo_memory mem' tt Hrun).
Defined.

